(** * discord-mcp: the resolution, routing and dispatch core of [index.js]

    A shallow embedding of the multi-server implementation ([src/index.js]):
    the configuration globals, the three resolvers, the routing helper and
    the [CallToolRequestSchema] handler, followed by the properties the
    specification states about them.

    Modelling conventions.
    - A JavaScript string is a [string], one element per unit: [.length],
      the chunking expression and the tests on the first unit work on
      elements.
    - [String.prototype.toLowerCase] is not computed here: it is the
      method of a class, [Casing], and every general statement holds for
      whatever map the engine has.  The examples run on the instance
      [utf8_casing], the engine's maps on the letters of ASCII and Latin-1;
      an example with a letter outside ASCII writes it as its UTF-8 bytes
      and measures no length.
    - A plain object read from JSON is the list of its own entries in the
      order of [Object.keys]; a read [obj[key]] that finds no own entry
      goes on to the properties every object inherits ([read]).
    - A discord.js [Collection] is the list of its values in iteration
      order; [get] finds the value with the given id.
    - [async] code with [throw] is a state-and-exception monad over the
      mutable globals; the remote platform, the filesystem and the timers
      are read from a [World] of oracles, and every remote operation is
      appended to a log. *)

From Stdlib Require Import ZArith Ascii String List Bool Lia Sorted.
From stdpp Require Import base option list strings gmap fin_maps.

Local Open Scope Z_scope.

(** ** JavaScript strings *)

Module JS.

Definition dq : string := String (ascii_of_nat 34) EmptyString.
Definition nl : string := String (ascii_of_nat 10) EmptyString.
Definition backticks : string :=
  let b := ascii_of_nat 96 in String b (String b (String b EmptyString)).

(** Case maps for text written as a Rocq literal is, in UTF-8: the ASCII
    letters, and the letters of Latin-1, which are the two-byte sequences
    that start with the byte 195 (and, for the upper-casing of the micro
    sign, 194).  Other bytes are left alone. *)
Definition lower_ascii (c : ascii) : ascii :=
  let n := nat_of_ascii c in
  if (Nat.leb 65 n && Nat.leb n 90)%bool then ascii_of_nat (n + 32) else c.

Definition upper_ascii (c : ascii) : ascii :=
  let n := nat_of_ascii c in
  if (Nat.leb 97 n && Nat.leb n 122)%bool then ascii_of_nat (n - 32) else c.

(** The second byte of a sequence that starts with 195: the capitals
    U+00C0 to U+00DE are 128 to 158, the multiplication sign is 151. *)
Definition lower_after_195 (b : ascii) : ascii :=
  let n := nat_of_ascii b in
  if (Nat.leb 128 n && Nat.leb n 158 && negb (Nat.eqb n 151))%bool
  then ascii_of_nat (n + 32) else b.

Fixpoint utf8_toLowerCase (s : string) : string :=
  match s with
  | EmptyString => EmptyString
  | String c r =>
      if Ascii.eqb c (ascii_of_nat 195) then
        match r with
        | String b r' => String c (String (lower_after_195 b) (utf8_toLowerCase r'))
        | EmptyString => String c EmptyString
        end
      else String (lower_ascii c) (utf8_toLowerCase r)
  end.

(** The upper-casing of the sequence 195, [b]: the small letters U+00E0
    to U+00FE are 160 to 190 (the division sign is 183); the sharp s, 159,
    becomes [SS], and the y with diaeresis, 191, leaves Latin-1. *)
Definition upper_after_195 (b : ascii) : string :=
  let n := nat_of_ascii b in
  if Nat.eqb n 159 then "SS"
  else if Nat.eqb n 191 then String (ascii_of_nat 197) (String (ascii_of_nat 184) EmptyString)
  else if (Nat.leb 160 n && Nat.leb n 190 && negb (Nat.eqb n 183))%bool
  then String (ascii_of_nat 195) (String (ascii_of_nat (n - 32)) EmptyString)
  else String (ascii_of_nat 195) (String b EmptyString).

Fixpoint utf8_toUpperCase (s : string) : string :=
  match s with
  | EmptyString => EmptyString
  | String c r =>
      if Ascii.eqb c (ascii_of_nat 195) then
        match r with
        | String b r' => upper_after_195 b +:+ utf8_toUpperCase r'
        | EmptyString => String c EmptyString
        end
      else if Ascii.eqb c (ascii_of_nat 194) then
        match r with
        | String b r' =>
            (if Nat.eqb (nat_of_ascii b) 181
             then String (ascii_of_nat 206) (String (ascii_of_nat 156) EmptyString)
             else String c (String b EmptyString)) +:+ utf8_toUpperCase r'
        | EmptyString => String c EmptyString
        end
      else String (upper_ascii c) (utf8_toUpperCase r)
  end.

Definition is_digit (c : ascii) : bool :=
  let n := nat_of_ascii c in (Nat.leb 48 n && Nat.leb n 57)%bool.

Fixpoint all_digits (s : string) : bool :=
  match s with
  | EmptyString => true
  | String c r => is_digit c && all_digits r
  end.

(** [/^\d+$/.test(s)] *)
Definition test_digits (s : string) : bool :=
  match s with
  | EmptyString => false
  | String _ _ => all_digits s
  end.

(** [s.replace(/^#/, "")] *)
Definition strip_hash (s : string) : string :=
  match s with
  | String c r => if Ascii.eqb c (ascii_of_nat 35) then r else s
  | EmptyString => s
  end.

(** Truthiness of a value that is a string or [undefined]: the value
    when it is a non-empty string. *)
Definition truthy (v : option string) : option string :=
  match v with
  | Some EmptyString => None
  | Some s => Some s
  | None => None
  end.

(** [`${v}`] for a string or [undefined]. *)
Definition show (v : option string) : string :=
  match v with
  | Some s => s
  | None => "undefined"
  end.

(** [v || d] *)
Definition or_else (v : option string) (d : string) : string :=
  match truthy v with
  | Some s => s
  | None => d
  end.

Fixpoint take (n : nat) (s : string) : string :=
  match n, s with
  | S k, String c r => String c (take k r)
  | _, _ => EmptyString
  end.

Fixpoint drop (n : nat) (s : string) : string :=
  match n, s with
  | S k, String _ r => drop k r
  | _, _ => s
  end.

(** [hay] has [needle] as a substring. *)
Definition contains (needle hay : string) : Prop :=
  exists pre post, hay = pre +:+ needle +:+ post.

(** An object read from JSON whose values are strings, as the list of
    its own entries in enumeration order. *)
Definition Obj : Type := list (string * string).

Definition get (o : Obj) (k : string) : option string :=
  snd <$> List.find (fun e => String.eqb (fst e) k) o.

Definition keys (o : Obj) : list string := List.map fst o.

(** What [obj[key]] reads on such an object: the string of an own entry,
    [undefined], or what [Object.prototype] holds under the key. *)
Inductive Value : Type :=
| VUndefined
| VString (s : string)
| VInherited (key : string).

(** The property names of [Object.prototype]. *)
Definition inherited_keys : list string :=
  ["constructor"; "__defineGetter__"; "__defineSetter__"; "hasOwnProperty";
   "__lookupGetter__"; "__lookupSetter__"; "isPrototypeOf";
   "propertyIsEnumerable"; "toString"; "valueOf"; "__proto__";
   "toLocaleString"].

Definition is_inherited (k : string) : bool :=
  List.existsb (String.eqb k) inherited_keys.

(** The read of a key that is no own property. *)
Definition inherited (k : string) : Value :=
  if is_inherited k then VInherited k else VUndefined.

Definition read (o : Obj) (k : string) : Value :=
  match get o k with
  | Some v => VString v
  | None => inherited k
  end.

(** Truthiness: an inherited property is a function or an object. *)
Definition is_truthy (v : Value) : bool :=
  match v with
  | VUndefined | VString EmptyString => false
  | VString _ | VInherited _ => true
  end.

(** The value as the key of a [Map.get] on a collection keyed by strings. *)
Definition as_id (v : Value) : option string :=
  match v with
  | VString s => Some s
  | _ => None
  end.

(** [`${v}`]: [__proto__] reads the prototype object itself, [constructor]
    the function [Object], any other key the method of that name. *)
Definition show_value (v : Value) : string :=
  match v with
  | VUndefined => "undefined"
  | VString s => s
  | VInherited k =>
      if String.eqb k "__proto__" then "[object Object]"
      else "function " +:+ (if String.eqb k "constructor" then "Object" else k)
           +:+ "() { [native code] }"
  end.

(** [l.join(sep)] *)
Fixpoint join (sep : string) (l : list string) : string :=
  match l with
  | nil => EmptyString
  | x :: nil => x
  | x :: r => x +:+ sep +:+ join sep r
  end.

(** JSON values handed to [JSON.stringify]. *)
#[local] Unset Elimination Schemes.
Inductive JSON : Type :=
| JNull
| JBool (b : bool)
| JNum (z : Z)
| JStr (s : string)
| JArr (l : list JSON)
| JObj (fields : list (string * JSON)).
#[local] Set Elimination Schemes.

End JS.

Import JS.

(** ** The case maps of the engine *)

(** [String.prototype.toLowerCase] and [toUpperCase].  The program calls
    the first; the second is the upper-casing the specification speaks of.
    Three facts about lower-casing are relied on: it changes nothing when
    applied twice, it leaves a string of digits alone, and only a string of
    digits lower-cases to one. *)
Class Casing : Type := {
  toLowerCase : string -> string;
  toUpperCase : string -> string;
  toLowerCase_idempotent :
    forall s, toLowerCase (toLowerCase s) = toLowerCase s;
  toLowerCase_digits :
    forall s, all_digits s = true -> toLowerCase s = s;
  toLowerCase_to_digits :
    forall s, all_digits (toLowerCase s) = true -> toLowerCase s = s
}.

(** The engine of the examples: text in UTF-8, letters of ASCII and
    Latin-1, on which the maps are the engine's ([É] to [é], [ß] to [SS]).
    No general statement depends on this instance. *)
#[global] Instance utf8_casing : Casing.
Proof.
  refine {| toLowerCase := utf8_toLowerCase; toUpperCase := utf8_toUpperCase |}.
  - assert (Hc : forall c, lower_after_195 (lower_after_195 c) = lower_after_195 c)
      by (intros [[] [] [] [] [] [] [] []]; reflexivity).
    assert (Ha : forall c, Ascii.eqb c (ascii_of_nat 195) = false ->
               Ascii.eqb (lower_ascii c) (ascii_of_nat 195) = false /\
               lower_ascii (lower_ascii c) = lower_ascii c)
      by (intros [[] [] [] [] [] [] [] []]; vm_compute; auto; discriminate).
    assert (H : forall n s, (String.length s <= n)%nat ->
              utf8_toLowerCase (utf8_toLowerCase s) = utf8_toLowerCase s).
    { induction n as [|n IH]; intros [|c r] Hn; try reflexivity;
        [simpl in Hn; lia|].
      simpl. destruct (Ascii.eqb c (ascii_of_nat 195)) eqn:E.
      - destruct r as [|b r']; simpl; rewrite E; [reflexivity|].
        rewrite Hc, IH; [reflexivity | simpl in Hn; lia].
      - destruct (Ha c E) as [E1 E2]. simpl. rewrite E1, E2, IH;
          [reflexivity | simpl in Hn; lia]. }
    intros s. now apply (H (String.length s)).
  - assert (Hd : forall c, is_digit c = true ->
               Ascii.eqb c (ascii_of_nat 195) = false /\ lower_ascii c = c)
      by (intros [[] [] [] [] [] [] [] []]; vm_compute; auto; discriminate).
    induction s as [|c r IH]; [reflexivity|]. simpl.
    intros [H1 H2]%andb_true_iff. destruct (Hd c H1) as [E1 E2].
    now rewrite E1, E2, (IH H2).
  - assert (Hd : forall c, is_digit (lower_ascii c) = true -> lower_ascii c = c)
      by (intros [[] [] [] [] [] [] [] []]; vm_compute; auto; discriminate).
    induction s as [|c r IH]; [reflexivity|]. simpl.
    destruct (Ascii.eqb c (ascii_of_nat 195)) eqn:E.
    + apply Ascii.eqb_eq in E. subst c. destruct r; discriminate.
    + simpl. intros [H1 H2]%andb_true_iff. now rewrite (Hd c H1), (IH H2).
Defined.

(** ** Remote entities, as the connection's caches hold them *)

Record Channel : Type := {
  c_id : string;
  c_name : string;
  c_isTextBased : bool;
  c_isThread : bool;
  c_type : Z;
  c_parent_name : option string;      (* [c.parent?.name] *)
  c_guild_name : string                (* [c.guild.name] *)
}.

Record Guild : Type := {
  g_id : string;
  g_name : string;
  g_channels : list Channel            (* [guild.channels.cache] *)
}.

Record User : Type := {
  u_id : string;
  u_username : string;
  u_globalName : option string;
  u_bot : bool
}.

Record Member : Type := {
  m_id : string;
  m_user : User;
  m_displayName : string
}.

Record Message : Type := {
  msg_author : User;
  msg_content : string;
  msg_createdAt : Z;                   (* milliseconds since the epoch *)
  msg_attachments : list string        (* the [url] of each attachment *)
}.

(** [collection.get(id)] on the guild and channel caches. *)
Definition guilds_get (cache : list Guild) (id : string) : option Guild :=
  List.find (fun g => String.eqb (g_id g) id) cache.

Definition channels_get (cache : list Channel) (id : string) : option Channel :=
  List.find (fun c => String.eqb (c_id c) id) cache.

(** ** What is sent, and the log of remote operations *)

Inductive Attachment : Type :=
| FromPath (path : string)                       (* [new AttachmentBuilder(path)] *)
| FromBuffer (data : string) (name : string).    (* [new AttachmentBuilder(Buffer.from(data), { name })] *)

Record Embed : Type := {
  e_image : string;
  e_title : option string
}.

Inductive Payload : Type :=
| PText (s : string)
| POptions (content : option string) (embeds : list Embed) (files : list Attachment).

Inductive Target : Type :=
| ToChannel (c : Channel)
| ToDM (u : User).

Inductive Call : Type :=
| Send (to : Target) (p : Payload)
| ChannelsFetch (guild_id : string)
| UsersFetch (user_id : string)
| UsersFetchNoId (v : Value)          (* [discord.users.fetch(v)], [v] no string *)
| MembersFetch (guild_id : string) (query : option string) (limit : Z)
| CreateDM (user_id : string)
| MessagesFetch (channel_id : string) (limit : Z).

Definition is_send (c : Call) : bool :=
  match c with
  | Send _ _ => true
  | _ => false
  end.

(** The [send] calls of a log, in order. *)
Definition sends (l : list Call) : list Call := List.filter is_send l.

(** ** Outcomes, state and the handler monad *)

Inductive outcome (A : Type) : Type :=
| Ok (a : A)
| Throw (message : string).
Arguments Ok {A} a.
Arguments Throw {A} message.

(** The mutable globals of the process, and the log. *)
Record State : Type := {
  discordReady : bool;
  (** the own properties of [USER_MAPPINGS] that hold a string *)
  USER_MAPPINGS : gmap string string;
  (** the own properties of [USER_MAPPINGS] that hold [undefined] *)
  USER_MAPPINGS_undefined : list string;
  guilds_cache : list Guild;            (* [discord.guilds.cache] *)
  calls : list Call
}.

(** What the process reads from outside. *)
Record World : Type := {
  (** the first poll of [waitForDiscord] at which the "ready" event has
      fired, if it ever does *)
  readyAfter : option nat;
  (** by how many milliseconds the timer armed at a poll fires late *)
  lateness : nat -> nat;
  existsSync : string -> bool;
  basename : string -> string;
  toISOString : Z -> string;
  (** [guild.channels.fetch()]: the guild's channel cache after the refresh *)
  channels_fetch : Guild -> outcome (list Channel);
  users_fetch : string -> outcome User;
  members_fetch : Guild -> option string -> Z -> outcome (list Member);
  createDM : User -> outcome unit;
  (** [send], by the number of remote operations made before it *)
  channel_send : nat -> Target -> Payload -> outcome unit;
  messages_fetch : Channel -> Z -> outcome (list Message)
}.

(** The environment variables, after [JSON.parse] (an object that failed
    to parse is the empty object). *)
Record Env : Type := {
  DISCORD_GUILDS : Obj;
  DISCORD_GUILD_ID : option string;
  DISCORD_DEFAULT_CHANNEL_ID : option string;
  DISCORD_USER_MAPPINGS : gmap string string
}.

Definition M (A : Type) : Type := State -> outcome A * State.

#[global] Instance M_ret : MRet M := fun A a st => (Ok a, st).

#[global] Instance M_bind : MBind M := fun A B f m st =>
  match m st with
  | (Ok a, st') => f a st'
  | (Throw e, st') => (Throw e, st')
  end.

Definition throw {A : Type} (message : string) : M A :=
  fun st => (Throw message, st).

Definition lift_outcome {A : Type} (r : outcome A) : M A :=
  fun st => (r, st).

Definition get_state : M State := fun st => (Ok st, st).

Definition modify (f : State -> State) : M unit := fun st => (Ok tt, f st).

Definition log_call (c : Call) (st : State) : State :=
  {| discordReady := discordReady st;
     USER_MAPPINGS := USER_MAPPINGS st;
     USER_MAPPINGS_undefined := USER_MAPPINGS_undefined st;
     guilds_cache := guilds_cache st;
     calls := calls st ++ [c] |}.

(** A remote operation: logged, then its outcome. *)
Definition remote {A : Type} (c : Call) (r : outcome A) : M A :=
  fun st => (r, log_call c st).

(** [TypeError] messages of the engine. *)
Definition reading_undefined (prop : string) : string :=
  "Cannot read properties of undefined (reading '" +:+ prop +:+ "')".

Definition buffer_from_undefined : string :=
  "The first argument must be of type string or an instance of Buffer, ArrayBuffer, or Array or an Array-like Object. Received undefined".

(** ** Requests and replies of the tool dispatcher *)

Module args.

(** The [arguments] object of a tool call; an absent property is [None]. *)
Record t : Type := {
  channel : option string;
  server : option string;
  message : option string;
  code : option string;
  language : option string;
  title : option string;
  file_path : option string;
  image_path : option string;
  user : option string;
  alias : option string;
  user_id : option string;
  limit : option Z
}.

Definition set_limit (l : option Z) (a : t) : t :=
  {| channel := channel a; server := server a; message := message a;
     code := code a; language := language a; title := title a;
     file_path := file_path a; image_path := image_path a; user := user a;
     alias := alias a; user_id := user_id a; limit := l |}.

Definition empty : t :=
  {| channel := None; server := None; message := None; code := None;
     language := None; title := None; file_path := None; image_path := None;
     user := None; alias := None; user_id := None; limit := None |}.

End args.

(** [request.params] *)
Record Request : Type := {
  name : string;
  arguments : option args.t
}.

(** The text of a reply: plain, or a prefix followed by
    [JSON.stringify(value, null, 2)]. *)
Inductive ReplyText : Type :=
| Text (s : string)
| TextJSON (prefix : string) (value : JSON).

Record Reply : Type := {
  text : ReplyText;
  isError : bool
}.

(** [v || d] on a number or [undefined]: zero is falsy. *)
Definition number_or (v : option Z) (d : Z) : Z :=
  match v with
  | Some 0 | None => d
  | Some n => n
  end.

(** ** Configuration globals *)

Section Config.

Context {casing : Casing}.
Variable env : Env.

(** [GUILDS], with the single-guild fallback folded in. *)
Definition GUILDS : Obj :=
  match truthy (DISCORD_GUILD_ID env), keys (DISCORD_GUILDS env) with
  | Some legacy, nil => DISCORD_GUILDS env ++ [("default", legacy)]
  | _, _ => DISCORD_GUILDS env
  end.

Definition DEFAULT_GUILD_ALIAS : string :=
  if is_truthy (read GUILDS "personal") then "personal"
  else or_else (head (keys GUILDS)) "default".

(** [process.env.DISCORD_DEFAULT_CHANNEL_ID || null] *)
Definition DEFAULT_CHANNEL_ID : option string :=
  truthy (DISCORD_DEFAULT_CHANNEL_ID env).

(** The state the process starts in. *)
Definition initial_state (cache : list Guild) : State :=
  {| discordReady := false;
     USER_MAPPINGS := DISCORD_USER_MAPPINGS env;
     USER_MAPPINGS_undefined := [];
     guilds_cache := cache;
     calls := [] |}.

(** ** Server resolver *)

Definition resolveGuild (cache : list Guild) (serverAlias : option string)
  : outcome Guild :=
  match truthy serverAlias with
  | None =>
      let guildId := read GUILDS DEFAULT_GUILD_ALIAS in
      match as_id guildId ≫= guilds_get cache with
      | Some guild => Ok guild
      | None =>
          Throw ("Default guild " +:+ dq +:+ DEFAULT_GUILD_ALIAS +:+ dq +:+
                 " (" +:+ show_value guildId +:+ ") not found")
      end
  | Some serverAlias =>
      let aliasLower := toLowerCase serverAlias in
      let guildId := read GUILDS aliasLower in
      if is_truthy guildId then
        match as_id guildId ≫= guilds_get cache with
        | Some guild => Ok guild
        | None =>
            Throw ("Guild alias " +:+ dq +:+ serverAlias +:+ dq +:+
                   " (" +:+ show_value guildId +:+ ") not found")
        end
      else
        match (if test_digits serverAlias
               then guilds_get cache serverAlias else None) with
        | Some guild => Ok guild
        | None =>
            match List.find
                    (fun g => String.eqb (toLowerCase (g_name g)) aliasLower)
                    cache with
            | Some guild => Ok guild
            | None =>
                Throw ("Server " +:+ dq +:+ serverAlias +:+ dq +:+
                       " not found. Available: " +:+ join ", " (keys GUILDS))
            end
        end
  end.

Section Handlers.

Variable w : World.

(** ** Readiness gate *)

Definition not_ready : string := "Discord client not ready (timeout)".

Definition ready_at (k : nat) : bool :=
  match readyAfter w with
  | Some n => Nat.leb n k
  | None => false
  end.

(** The [check] closure at its [k]-th poll, [elapsed] being what it reads
    as [Date.now() - start]: a poll that neither resolves nor rejects arms
    a timer of 200 ms, which fires after that delay or later. *)
Fixpoint check (timeoutMs : Z) (fuel k : nat) (elapsed : Z)
  : option (outcome unit) :=
  match fuel with
  | O => None
  | S fuel' =>
      if ready_at k then Some (Ok tt)
      else if timeoutMs <? elapsed then Some (Throw not_ready)
      else check timeoutMs fuel' (S k) (elapsed + 200 + Z.of_nat (lateness w k))
  end.

(** Polls that [check] can make before the timeout rejects. *)
Definition polls (timeoutMs : Z) : nat := Z.to_nat (timeoutMs / 200) + 2.

Definition set_ready (st : State) : State :=
  {| discordReady := true;
     USER_MAPPINGS := USER_MAPPINGS st;
     USER_MAPPINGS_undefined := USER_MAPPINGS_undefined st;
     guilds_cache := guilds_cache st;
     calls := calls st |}.

Definition waitForDiscord (timeoutMs : Z) : M unit := fun st =>
  if discordReady st then (Ok tt, st)
  else
    match check timeoutMs (polls timeoutMs) 0 0 with
    | Some (Ok _) => (Ok tt, set_ready st)
    | Some (Throw e) => (Throw e, st)
    | None => (Throw not_ready, st)     (* not reached: [polls] are enough *)
    end.

(** ** Channel resolver *)

Definition name_matches (cleanName : string) (c : Channel) : bool :=
  String.eqb (toLowerCase (c_name c)) cleanName && c_isTextBased c.

Definition set_channels (guild_id : string) (chs : list Channel) (st : State)
  : State :=
  {| discordReady := discordReady st;
     USER_MAPPINGS := USER_MAPPINGS st;
     USER_MAPPINGS_undefined := USER_MAPPINGS_undefined st;
     guilds_cache :=
       List.map (fun g => if String.eqb (g_id g) guild_id
                          then {| g_id := g_id g; g_name := g_name g;
                                  g_channels := chs |}
                          else g) (guilds_cache st);
     calls := calls st |}.

(** [await guild.channels.fetch()]: the refreshed channel cache. *)
Definition fetch_channels (guild : Guild) : M (list Channel) :=
  chs ← remote (ChannelsFetch (g_id guild)) (channels_fetch w guild);
  modify (set_channels (g_id guild) chs);;
  mret chs.

Definition resolveChannel (channelIdOrName : string) (guild : Guild)
  : M Channel :=
  match channels_get (g_channels guild) channelIdOrName with
  | Some channel => mret channel
  | None =>
      let cleanName := toLowerCase (strip_hash channelIdOrName) in
      match List.find (name_matches cleanName) (g_channels guild) with
      | Some channel => mret channel
      | None =>
          cache ← fetch_channels guild;
          match channels_get cache channelIdOrName with
          | Some channel => mret channel
          | None =>
              match List.find (name_matches cleanName) cache with
              | Some channel => mret channel
              | None =>
                  throw ("Channel " +:+ dq +:+ channelIdOrName +:+ dq +:+
                         " not found in " +:+ g_name guild)
              end
          end
      end
  end.

(** ** Routing *)

Fixpoint find_default_channel (cache : list Guild) (id : string)
  : option Channel :=
  match cache with
  | nil => None
  | g :: rest =>
      match channels_get (g_channels g) id with
      | Some ch => Some ch
      | None => find_default_channel rest id
      end
  end.

Definition resolveChannelWithServer (channelArg serverArg : option string)
  : M Channel :=
  waitForDiscord 15000;;
  st ← get_state;
  guild ← lift_outcome (resolveGuild (guilds_cache st) serverArg);
  match truthy channelArg with
  | Some channelArg => resolveChannel channelArg guild
  | None =>
      match DEFAULT_CHANNEL_ID ≫= find_default_channel (guilds_cache st) with
      | Some ch => mret ch
      | None => throw "No channel specified and no default channel set"
      end
  end.

(** ** User resolver *)

Definition member_matches (nameOrId : string) (m : Member) : bool :=
  String.eqb (toLowerCase (u_username (m_user m))) (toLowerCase nameOrId)
  || String.eqb (toLowerCase (m_displayName m)) (toLowerCase nameOrId)
  || match u_globalName (m_user m) with
     | Some globalName =>
         String.eqb (toLowerCase globalName) (toLowerCase nameOrId)
     | None => false
     end.

(** [try { return await discord.users.fetch(id) } catch { throw new Error(message) }] *)
Definition fetch_user_or (id message : string) : M User := fun st =>
  match users_fetch w id with
  | Ok u => (Ok u, log_call (UsersFetch id) st)
  | Throw _ => (Throw message, log_call (UsersFetch id) st)
  end.

(** The same with a value that is no string: the platform has no user
    under it, and the fetch fails. *)
Definition fetch_no_user_or (v : Value) (message : string) : M User :=
  fun st => (Throw message, log_call (UsersFetchNoId v) st).

(** [USER_MAPPINGS[key]] *)
Definition read_mapping (st : State) (key : string) : Value :=
  match USER_MAPPINGS st !! key with
  | Some v => VString v
  | None =>
      if List.existsb (String.eqb key) (USER_MAPPINGS_undefined st)
      then VUndefined else inherited key
  end.

(** The loop over [Object.entries(GUILDS)]. *)
Fixpoint search_guilds (nameOrId : string) (entries : Obj) : M (option User) :=
  match entries with
  | nil => mret None
  | (_, guildId) :: rest =>
      st ← get_state;
      match guilds_get (guilds_cache st) guildId with
      | None => search_guilds nameOrId rest
      | Some guild =>
          members ← remote (MembersFetch (g_id guild) (Some nameOrId) 5)
                           (members_fetch w guild (Some nameOrId) 5);
          match List.find (member_matches nameOrId) members with
          | Some m => mret (Some (m_user m))
          | None => search_guilds nameOrId rest
          end
      end
  end.

Definition resolveUser (nameOrId : option string) : M User :=
  waitForDiscord 15000;;
  match nameOrId with
  | None => throw (reading_undefined "toLowerCase")
  | Some nameOrId =>
      st ← get_state;
      let mappedId := read_mapping st (toLowerCase nameOrId) in
      if is_truthy mappedId then
        let message :=
          "Mapped user " +:+ dq +:+ nameOrId +:+ dq +:+
          " (ID: " +:+ show_value mappedId +:+ ") not found" in
        match mappedId with
        | VString id => fetch_user_or id message
        | _ => fetch_no_user_or mappedId message
        end
      else if test_digits nameOrId then
        fetch_user_or nameOrId
          ("User with ID " +:+ nameOrId +:+ " not found")
      else
        found ← search_guilds nameOrId GUILDS;
        match found with
        | Some u => mret u
        | None => throw ("User " +:+ dq +:+ nameOrId +:+ dq +:+ " not found")
        end
  end.

(** ** Tool handlers *)

Definition formatCodeBlock (code : option string) (language : string) : string :=
  backticks +:+ language +:+ nl +:+ show code +:+ nl +:+ backticks.

Definition send (to : Target) (p : Payload) : M unit := fun st =>
  (channel_send w (length (calls st)) to p, log_call (Send to p) st).

(** [msg.match(/[\s\S]{1,2000}/g)]: successive greedy matches of at most
    [n] units; [fuel] bounds the number of matches. *)
Fixpoint match_chunks (n fuel : nat) (msg : string) : list string :=
  match fuel, msg with
  | S fuel', String _ _ => take n msg :: match_chunks n fuel' (drop n msg)
  | _, _ => nil
  end.

Definition chunks_of (msg : string) : list string :=
  match_chunks 2000 (String.length msg) msg.

Fixpoint send_each (to : Target) (chunks : list string) : M unit :=
  match chunks with
  | nil => mret tt
  | chunk :: rest => send to (PText chunk);; send_each to rest
  end.

Definition sent_to (what : string) (channel : Channel) : string :=
  what +:+ " sent to #" +:+ c_name channel +:+ " in " +:+ c_guild_name channel.

Definition discord_send_message (a : args.t) : M ReplyText :=
  channel ← resolveChannelWithServer (args.channel a) (args.server a);
  match args.message a with
  | None => throw (reading_undefined "length")
  | Some msg =>
      (if Nat.leb (String.length msg) 2000
       then send (ToChannel channel) (PText msg)
       else send_each (ToChannel channel) (chunks_of msg));;
      mret (Text (sent_to "Message" channel))
  end.

Definition bold (s : string) : string := "**" +:+ s +:+ "**".

(** The [fullMessage] and [ext] constants of the send-code case. *)
Definition fullMessage (a : args.t) : string :=
  let codeBlock :=
    formatCodeBlock (args.code a) (or_else (args.language a) "") in
  match truthy (args.title a) with
  | Some title => bold title +:+ nl +:+ codeBlock
  | None => codeBlock
  end.

Definition ext (a : args.t) : string :=
  match truthy (args.language a) with
  | Some language => "." +:+ language
  | None => ".txt"
  end.

Definition discord_send_code (a : args.t) : M ReplyText :=
  channel ← resolveChannelWithServer (args.channel a) (args.server a);
  (if Nat.ltb 2000 (String.length (fullMessage a)) then
     match args.code a with
     | None => throw buffer_from_undefined
     | Some code =>
         send (ToChannel channel)
              (POptions (bold <$> truthy (args.title a)) nil
                        [FromBuffer code ("code" +:+ ext a)])
     end
   else send (ToChannel channel) (PText (fullMessage a)));;
  mret (Text (sent_to "Code snippet" channel)).

Definition discord_send_file (a : args.t) : M ReplyText :=
  channel ← resolveChannelWithServer (args.channel a) (args.server a);
  let filePath := args.file_path a in
  match filePath with
  | Some path =>
      if existsSync w path then
        send (ToChannel channel)
             (POptions (truthy (args.message a)) nil [FromPath path]);;
        mret (Text (sent_to ("File " +:+ dq +:+ basename w path +:+ dq) channel))
      else throw ("File not found: " +:+ path)
  | None => throw ("File not found: " +:+ show filePath)
  end.

Definition discord_send_image (a : args.t) : M ReplyText :=
  channel ← resolveChannelWithServer (args.channel a) (args.server a);
  let imgPath := args.image_path a in
  match imgPath with
  | Some path =>
      if existsSync w path then
        let embed :=
          {| e_image := "attachment://" +:+ basename w path;
             e_title := truthy (args.message a) |} in
        send (ToChannel channel) (POptions None [embed] [FromPath path]);;
        mret (Text (sent_to ("Image " +:+ dq +:+ basename w path +:+ dq) channel))
      else throw ("Image not found: " +:+ path)
  | None => throw ("Image not found: " +:+ show imgPath)
  end.

Definition opt_list (v : option string) : list string :=
  match truthy v with
  | Some s => [s]
  | None => nil
  end.

Definition discord_send_dm (a : args.t) : M ReplyText :=
  user ← resolveUser (args.user a);
  remote (CreateDM (u_id user)) (createDM w user);;
  let parts :=
    opt_list (args.message a) ++
    match truthy (args.code a) with
    | Some _ => [formatCodeBlock (args.code a) (or_else (args.language a) "")]
    | None => nil
    end in
  let content := join nl parts in
  files ←
    match truthy (args.file_path a) with
    | Some path =>
        if existsSync w path then mret [FromPath path]
        else throw ("File not found: " +:+ path)
    | None => mret nil
    end;
  send (ToDM user) (POptions (truthy (Some content)) nil files);;
  mret (Text ("DM sent to " +:+ u_username user +:+ " (" +:+ u_id user +:+ ")")).

Definition channel_record (c : Channel) : JSON :=
  JObj [("id", JStr (c_id c)); ("name", JStr (c_name c));
        ("type", JNum (c_type c));
        ("category", JStr (or_else (c_parent_name c) "none"))].

Definition discord_list_channels (a : args.t) : M ReplyText :=
  st ← get_state;
  guild ← lift_outcome (resolveGuild (guilds_cache st) (args.server a));
  cache ← fetch_channels guild;
  let textChannels :=
    List.map channel_record
      (List.filter (fun c => c_isTextBased c && negb (c_isThread c)) cache) in
  mret (TextJSON ("Channels in " +:+ g_name guild +:+ ":" +:+ nl)
                 (JArr textChannels)).

Definition member_record (m : Member) : JSON :=
  JObj [("id", JStr (m_id m)); ("username", JStr (u_username (m_user m)));
        ("displayName", JStr (m_displayName m));
        ("globalName",
         match u_globalName (m_user m) with
         | Some n => JStr n
         | None => JNull
         end);
        ("bot", JBool (u_bot (m_user m)))].

Definition discord_list_members (a : args.t) : M ReplyText :=
  st ← get_state;
  guild ← lift_outcome (resolveGuild (guilds_cache st) (args.server a));
  let limit := Z.min (number_or (args.limit a) 50) 100 in
  members ← remote (MembersFetch (g_id guild) None limit)
                   (members_fetch w guild None limit);
  mret (TextJSON ("Members in " +:+ g_name guild +:+ ":" +:+ nl)
                 (JArr (List.map member_record members))).

Definition server_record (cache : list Guild) (entry : string * string) : JSON :=
  let '(alias, id) := entry in
  JObj [("alias", JStr alias); ("id", JStr id);
        ("name", JStr (or_else (g_name <$> guilds_get cache id) "not connected"));
        ("default", JBool (String.eqb alias DEFAULT_GUILD_ALIAS))].

Definition discord_list_servers : M ReplyText :=
  st ← get_state;
  mret (TextJSON "" (JArr (List.map (server_record (guilds_cache st)) GUILDS))).

(** The table has an own property under the key. *)
Definition has_own (st : State) (key : string) : bool :=
  match USER_MAPPINGS st !! key with
  | Some _ => true
  | None => List.existsb (String.eqb key) (USER_MAPPINGS_undefined st)
  end.

(** [USER_MAPPINGS[key] = value].  Under the key [__proto__], unless the
    table has it as an own property, the assignment goes to the setter of
    [Object.prototype], which does nothing with a string or [undefined];
    under any other key it makes or updates an own property. *)
Definition assign_mapping (key : string) (value : option string) (st : State)
  : State :=
  if String.eqb key "__proto__" && negb (has_own st key) then st
  else
    let others :=
      List.filter (fun k => negb (String.eqb key k)) (USER_MAPPINGS_undefined st) in
    {| discordReady := discordReady st;
       USER_MAPPINGS :=
         match value with
         | Some v => <[key := v]> (USER_MAPPINGS st)
         | None => delete key (USER_MAPPINGS st)
         end;
       USER_MAPPINGS_undefined :=
         match value with
         | Some _ => others
         | None => key :: others
         end;
       guilds_cache := guilds_cache st;
       calls := calls st |}.

Definition discord_add_user_mapping (a : args.t) : M ReplyText :=
  match args.alias a with
  | None => throw (reading_undefined "toLowerCase")
  | Some alias =>
      modify (assign_mapping (toLowerCase alias) (args.user_id a));;
      mret (Text ("Mapped " +:+ dq +:+ alias +:+ dq +:+ " -> " +:+
                  show (args.user_id a) +:+ " (session only)"))
  end.

Definition message_record (m : Message) : JSON :=
  JObj [("author", JStr (u_username (msg_author m)));
        ("content", JStr (msg_content m));
        ("timestamp", JStr (toISOString w (msg_createdAt m)));
        ("attachments", JArr (List.map JStr (msg_attachments m)))].

Definition discord_read_messages (a : args.t) : M ReplyText :=
  channel ← resolveChannelWithServer (args.channel a) (args.server a);
  let limit := Z.min (number_or (args.limit a) 10) 50 in
  messages ← remote (MessagesFetch (c_id channel) limit)
                    (messages_fetch w channel limit);
  let formatted := List.map message_record (List.rev messages) in
  mret (TextJSON "" (JArr formatted)).

(** ** The dispatch boundary *)

(** Reading a property of [args]: a [TypeError] when the request carried
    no [arguments]. *)
Definition with_args (r : Request) (first_prop : string)
    (k : args.t -> M ReplyText) : M ReplyText :=
  match arguments r with
  | Some a => k a
  | None => throw (reading_undefined first_prop)
  end.

(** The [switch (name)]. *)
Definition dispatch (r : Request) : M ReplyText :=
  let tool := name r in
  if String.eqb tool "discord_send_message" then
    with_args r "channel" discord_send_message
  else if String.eqb tool "discord_send_code" then
    with_args r "channel" discord_send_code
  else if String.eqb tool "discord_send_file" then
    with_args r "channel" discord_send_file
  else if String.eqb tool "discord_send_image" then
    with_args r "channel" discord_send_image
  else if String.eqb tool "discord_send_dm" then
    with_args r "user" discord_send_dm
  else if String.eqb tool "discord_list_channels" then
    with_args r "server" discord_list_channels
  else if String.eqb tool "discord_list_members" then
    with_args r "server" discord_list_members
  else if String.eqb tool "discord_list_servers" then
    discord_list_servers
  else if String.eqb tool "discord_add_user_mapping" then
    with_args r "alias" discord_add_user_mapping
  else if String.eqb tool "discord_read_messages" then
    with_args r "channel" discord_read_messages
  else throw ("Unknown tool: " +:+ tool).

(** The body of the [try]. *)
Definition try_body (r : Request) : M ReplyText :=
  waitForDiscord 15000;;
  dispatch r.

(** The handler registered for [CallToolRequestSchema]: the [try] with its
    [catch]. *)
Definition CallToolHandler (r : Request) (st : State) : Reply * State :=
  match try_body r st with
  | (Ok t, st') => ({| text := t; isError := false |}, st')
  | (Throw message, st') =>
      ({| text := Text ("Error: " +:+ message); isError := true |}, st')
  end.

End Handlers.
End Config.

(** ** Notions the properties are stated with *)

(** The handle a resolution returns, if it returns one. *)
Definition handle {A : Type} (r : outcome A) : option A :=
  match r with
  | Ok a => Some a
  | Throw _ => None
  end.


(** A channel matches an identifier, in the words of the specification: by
    ID, or by name up to case, a leading [#] of the identifier stripped,
    among the text-capable channels. *)
Definition channel_matches {casing : Casing} (ident : string) (c : Channel) : Prop :=
  c_id c = ident \/
  (toLowerCase (c_name c) = toLowerCase (strip_hash ident) /\
   c_isTextBased c = true).

(** The two sub-lookups of one phase. *)
Definition lookup_channel {casing : Casing} (cache : list Channel) (ident : string)
  : option Channel :=
  match channels_get cache ident with
  | Some c => Some c
  | None => List.find (name_matches (toLowerCase (strip_hash ident))) cache
  end.

(** What a call adds to the log. *)
Definition logged (st st' : State) (l : list Call) : Prop :=
  calls st' = calls st ++ l.

(** [chunks.join("")] *)
Definition glue (chunks : list string) : string :=
  List.fold_right String.append EmptyString chunks.

(** Order of a list of messages by creation time. *)
Definition newest_first (l : list Message) : Prop :=
  StronglySorted (fun m1 m2 => msg_createdAt m2 <= msg_createdAt m1) l.

Definition oldest_first (l : list Message) : Prop :=
  StronglySorted (fun m1 m2 => msg_createdAt m1 <= msg_createdAt m2) l.

(** Every key of the table is its own lower-casing. *)
Definition lower_keys {casing : Casing} (m : gmap string string) : Prop :=
  forall k v, m !! k = Some v -> toLowerCase k = k.

(** The names of the [switch]. *)
Definition tool_names : list string :=
  ["discord_send_message"; "discord_send_code"; "discord_send_file";
   "discord_send_image"; "discord_send_dm"; "discord_list_channels";
   "discord_list_members"; "discord_list_servers";
   "discord_add_user_mapping"; "discord_read_messages"].


(** The reply of the [catch]. *)
Definition error_reply (message : string) : Reply :=
  {| text := Text ("Error: " +:+ message); isError := true |}.

(** ** Example configurations, caches and worlds *)

(** A registry whose only alias is written with a capital, and the cache
    of a connection that has joined the guild the alias maps to. *)
Definition env_work : Env :=
  {| DISCORD_GUILDS := [("Work", "111")];
     DISCORD_GUILD_ID := None;
     DISCORD_DEFAULT_CHANNEL_ID := None;
     DISCORD_USER_MAPPINGS := ∅ |}.

Definition office : Guild :=
  {| g_id := "111"; g_name := "Office"; g_channels := [] |}.

(** No server configured at all, and a guild that happens to be named
    like the default alias. *)
Definition env_none : Env :=
  {| DISCORD_GUILDS := [];
     DISCORD_GUILD_ID := None;
     DISCORD_DEFAULT_CHANNEL_ID := None;
     DISCORD_USER_MAPPINGS := ∅ |}.

Definition named_default : Guild :=
  {| g_id := "333"; g_name := "Default"; g_channels := [] |}.

Definition named_constructor : Guild :=
  {| g_id := "444"; g_name := "constructor"; g_channels := [] |}.

(** A registry whose alias has a letter that upper-cases to two. *)
Definition env_strasse : Env :=
  {| DISCORD_GUILDS := [("straße", "111")];
     DISCORD_GUILD_ID := None;
     DISCORD_DEFAULT_CHANNEL_ID := None;
     DISCORD_USER_MAPPINGS := ∅ |}.

(** A registry in the documented shape. *)
Definition env_two : Env :=
  {| DISCORD_GUILDS := [("checkpoint", "222"); ("personal", "111")];
     DISCORD_GUILD_ID := None;
     DISCORD_DEFAULT_CHANNEL_ID := None;
     DISCORD_USER_MAPPINGS := ∅ |}.

Definition general : Channel :=
  {| c_id := "900"; c_name := "general"; c_isTextBased := true;
     c_isThread := false; c_type := 0; c_parent_name := None;
     c_guild_name := "Office" |}.

Definition releases : Channel :=
  {| c_id := "901"; c_name := "Releases"; c_isTextBased := true;
     c_isThread := false; c_type := 0; c_parent_name := Some "dev";
     c_guild_name := "Office" |}.

(** The guild [111] with one channel in its cache. *)
Definition office_cached : Guild :=
  {| g_id := "111"; g_name := "Office"; g_channels := [general] |}.

(** A world in which the connection is ready at the first poll, every
    remote operation succeeds, and a refresh of any guild's channels finds
    [general] and [releases]. *)
Definition calm : World :=
  {| readyAfter := Some O;
     lateness := fun _ => O;
     existsSync := fun _ => false;
     basename := fun p => p;
     toISOString := fun _ => "1970-01-01T00:00:00.000Z";
     channels_fetch := fun _ => Ok [general; releases];
     users_fetch := fun _ => Throw "Unknown User";
     members_fetch := fun _ _ _ => Ok [];
     createDM := fun _ => Ok tt;
     channel_send := fun _ _ _ => Ok tt;
     messages_fetch := fun _ _ => Ok [] |}.

(** A string of [n] units [c]. *)
Fixpoint units (n : nat) (c : ascii) : string :=
  match n with
  | O => EmptyString
  | S k => String c (units k c)
  end.

Definition ready_state (cache : list Guild) : State :=
  {| discordReady := true; USER_MAPPINGS := ∅; USER_MAPPINGS_undefined := [];
     guilds_cache := cache; calls := [] |}.

Definition late : Message :=
  {| msg_author := {| u_id := "7"; u_username := "ann"; u_globalName := None;
                      u_bot := false |};
     msg_content := "second"; msg_createdAt := 2000; msg_attachments := [] |}.

Definition early : Message :=
  {| msg_author := {| u_id := "8"; u_username := "bob"; u_globalName := None;
                      u_bot := false |};
     msg_content := "first"; msg_createdAt := 1000;
     msg_attachments := ["https://cdn.example/a.png"] |}.

(** [calm], with two messages in every channel. *)
Definition chatty : World :=
  {| readyAfter := readyAfter calm;
     lateness := lateness calm;
     existsSync := existsSync calm;
     basename := basename calm;
     toISOString := toISOString calm;
     channels_fetch := channels_fetch calm;
     users_fetch := users_fetch calm;
     members_fetch := members_fetch calm;
     createDM := createDM calm;
     channel_send := channel_send calm;
     messages_fetch := fun _ _ => Ok [late; early] |}.

(** A configuration with one user alias, written with a capital. *)
Definition env_john : Env :=
  {| DISCORD_GUILDS := [("personal", "111")];
     DISCORD_GUILD_ID := None;
     DISCORD_DEFAULT_CHANNEL_ID := None;
     DISCORD_USER_MAPPINGS := {["John" := "123"]} |}.

Definition john : User :=
  {| u_id := "123"; u_username := "johnny"; u_globalName := None;
     u_bot := false |}.

(** [calm], with the user [123] known to the platform. *)
Definition knows_john : World :=
  {| readyAfter := readyAfter calm;
     lateness := lateness calm;
     existsSync := existsSync calm;
     basename := basename calm;
     toISOString := toISOString calm;
     channels_fetch := channels_fetch calm;
     users_fetch := fun id => if String.eqb id "123" then Ok john
                              else Throw "Unknown User";
     members_fetch := members_fetch calm;
     createDM := createDM calm;
     channel_send := channel_send calm;
     messages_fetch := messages_fetch calm |}.

(** ** Notions of the further properties *)

(** A computation keeps to a relation between the state it starts in and
    the state it leaves. *)
Definition respects {A : Type} (R : State -> State -> Prop) (m : M A) : Prop :=
  forall st r st', m st = (r, st') -> R st st'.

(** The guilds of a cache, without their channel lists. *)
Definition guild_identities (cache : list Guild) : list (string * string) :=
  List.map (fun g => (g_id g, g_name g)) cache.

(** What an invocation may do to the state besides the mapping table: the
    readiness flag is not lowered, the log is extended, and the guilds of
    the cache stay the same guilds in the same order. *)
Definition evolves (st st' : State) : Prop :=
  (discordReady st = true -> discordReady st' = true) /\
  (exists l, calls st' = calls st ++ l) /\
  guild_identities (guilds_cache st') = guild_identities (guilds_cache st).

(** The mapping table keeps its lower-cased keys. *)
Definition keeps_lower_keys {casing : Casing} (st st' : State) : Prop :=
  lower_keys (USER_MAPPINGS st) -> lower_keys (USER_MAPPINGS st').

Definition same_mappings (st st' : State) : Prop :=
  USER_MAPPINGS st' = USER_MAPPINGS st.

(** A second guild with the channel [950], and a configuration that names
    that channel as the default one. *)
Definition alerts : Channel :=
  {| c_id := "950"; c_name := "alerts"; c_isTextBased := true;
     c_isThread := false; c_type := 0; c_parent_name := None;
     c_guild_name := "Lab" |}.

Definition lab : Guild :=
  {| g_id := "222"; g_name := "Lab"; g_channels := [alerts] |}.

Definition env_alerts : Env :=
  {| DISCORD_GUILDS := [("checkpoint", "222"); ("personal", "111")];
     DISCORD_GUILD_ID := None;
     DISCORD_DEFAULT_CHANNEL_ID := Some "950";
     DISCORD_USER_MAPPINGS := ∅ |}.

(** A member of the guild [111], and [calm] with a member search that
    finds her. *)
Definition ann : Member :=
  {| m_id := "7";
     m_user := {| u_id := "7"; u_username := "ann_k"; u_globalName := Some "Ann";
                  u_bot := false |};
     m_displayName := "Annie" |}.

Definition finds_ann : World :=
  {| readyAfter := readyAfter calm;
     lateness := lateness calm;
     existsSync := existsSync calm;
     basename := basename calm;
     toISOString := toISOString calm;
     channels_fetch := channels_fetch calm;
     users_fetch := users_fetch calm;
     members_fetch := fun _ _ _ => Ok [ann];
     createDM := createDM calm;
     channel_send := channel_send calm;
     messages_fetch := messages_fetch calm |}.

(** What the send-message tool has to send for a message: the message
    itself when it is within the limit, its chunks otherwise. *)
Definition expected_texts (msg : string) : list string :=
  if Nat.leb (String.length msg) 2000 then [msg] else chunks_of msg.

(** The local file of an argument is missing: the path is absent or
    [existsSync] denies it. *)
Definition file_missing (w : World) (p : option string) : Prop :=
  match p with
  | Some path => existsSync w path = false
  | None => True
  end.

(** [calm], where the first [send] succeeds and every later one is refused. *)
Definition second_send_fails : World :=
  {| readyAfter := readyAfter calm;
     lateness := lateness calm;
     existsSync := existsSync calm;
     basename := basename calm;
     toISOString := toISOString calm;
     channels_fetch := channels_fetch calm;
     users_fetch := users_fetch calm;
     members_fetch := members_fetch calm;
     createDM := createDM calm;
     channel_send := fun n _ _ => match n with
                                  | O => Ok tt
                                  | S _ => Throw "Missing Permissions"
                                  end;
     messages_fetch := messages_fetch calm |}.

(** The property of [args] that the case of a tool reads first. *)
Definition first_property (tool : string) : string :=
  if String.eqb tool "discord_send_dm" then "user"
  else if String.eqb tool "discord_list_channels" then "server"
  else if String.eqb tool "discord_list_members" then "server"
  else if String.eqb tool "discord_add_user_mapping" then "alias"
  else "channel".

(** * Properties *)

(** ** Facts about strings *)

Module StringFacts.

Lemma append_cons (x : ascii) (a b : string) :
  String x a +:+ b = String x (a +:+ b).
Proof. reflexivity. Qed.

Lemma append_assoc (a b c : string) : (a +:+ b) +:+ c = a +:+ b +:+ c.
Proof.
  induction a as [|x a IH]; [reflexivity|].
  now rewrite !append_cons, IH.
Qed.

Lemma append_empty_r (a : string) : a +:+ EmptyString = a.
Proof.
  induction a as [|x a IH]; [reflexivity|].
  now rewrite append_cons, IH.
Qed.

Lemma contains_refl (s : string) : contains s s.
Proof.
  exists EmptyString, EmptyString.
  change (s = s +:+ EmptyString). now rewrite append_empty_r.
Qed.

Lemma contains_here (pre s post : string) : contains s (pre +:+ s +:+ post).
Proof. now exists pre, post. Qed.

Lemma contains_after (p s t : string) : contains s t -> contains s (p +:+ t).
Proof.
  intros (pre & post & ->). exists (p +:+ pre), post.
  now rewrite append_assoc.
Qed.

Lemma test_digits_all (s : string) : test_digits s = true -> all_digits s = true.
Proof. destruct s; [discriminate | trivial]. Qed.

Lemma truthy_Some (v : option string) (s : string) :
  truthy v = Some s -> v = Some s /\ s <> EmptyString.
Proof.
  destruct v as [[|c r]|]; simpl; try discriminate.
  intros [= <-]. split; [reflexivity | discriminate].
Qed.

Lemma truthy_nonempty (s : string) : s <> EmptyString -> truthy (Some s) = Some s.
Proof. destruct s; [congruence | reflexivity]. Qed.

(** The empty string is all digits, so lower-casing leaves it alone, and
    nothing else lower-cases to it. *)
Lemma toLowerCase_empty {casing : Casing} : toLowerCase EmptyString = EmptyString.
Proof. now apply toLowerCase_digits. Qed.

Lemma toLowerCase_nonempty {casing : Casing} (s : string) :
  s <> EmptyString -> toLowerCase s <> EmptyString.
Proof.
  intros Hne E. apply Hne. rewrite <- E. symmetry.
  apply toLowerCase_to_digits. now rewrite E.
Qed.

(** Two identifiers with one lower-casing are both strings of digits, and
    then equal, or neither is. *)
Lemma same_lowering_digits {casing : Casing} (a b : string) :
  toLowerCase a = toLowerCase b -> test_digits a = true -> a = b.
Proof.
  intros E Ha. apply test_digits_all in Ha.
  pose proof (toLowerCase_digits a Ha) as Hfix.
  rewrite <- Hfix at 1. rewrite E. apply toLowerCase_to_digits.
  now rewrite <- E, Hfix.
Qed.

(** *** Reads of an object *)

Lemma read_own (o : Obj) (k v : string) : get o k = Some v -> read o k = VString v.
Proof. unfold read. now intros ->. Qed.

Lemma get_head (k v : string) (rest : Obj) : get ((k, v) :: rest) k = Some v.
Proof. unfold get. simpl. now rewrite String.eqb_refl. Qed.

(** Every inherited key starts with a letter or an underscore. *)
Lemma digits_not_inherited (s : string) :
  test_digits s = true -> is_inherited s = false.
Proof.
  destruct s as [|c r]; [discriminate|]. simpl.
  intros [Hc _]%andb_true_iff. revert Hc.
  destruct c as [[] [] [] [] [] [] [] []]; try discriminate; reflexivity.
Qed.

(** A key that is no own property with a non-empty string, and that no
    object inherits, reads as a falsy value. *)
Lemma read_not_truthy (o : Obj) (k : string) :
  truthy (get o k) = None -> is_inherited k = false ->
  is_truthy (read o k) = false.
Proof.
  unfold read, inherited. intros Hget Hinh. rewrite Hinh.
  now destruct (get o k) as [[|c r]|].
Qed.

Lemma read_truthy_own (o : Obj) (k v : string) :
  get o k = Some v -> v <> EmptyString ->
  read o k = VString v /\ is_truthy (read o k) = true.
Proof.
  intros Hget Hv. rewrite (read_own _ _ _ Hget). split; [reflexivity|].
  now destruct v.
Qed.

End StringFacts.

(** ** Facts about the monad and the log *)

Module MonadFacts.

Lemma bind_Ok {A B : Type} (m : M A) (f : A -> M B) st b st' :
  (m ≫= f) st = (Ok b, st') ->
  exists a st1, m st = (Ok a, st1) /\ f a st1 = (Ok b, st').
Proof.
  unfold mbind, M_bind. destruct (m st) as [[a|e] st1]; [eauto | discriminate].
Qed.


Lemma bind_step {A B : Type} (m : M A) (f : A -> M B) st a st1 :
  m st = (Ok a, st1) -> (m ≫= f) st = f a st1.
Proof. unfold mbind, M_bind. now intros ->. Qed.

Lemma bind_fail {A B : Type} (m : M A) (f : A -> M B) st e st1 :
  m st = (Throw e, st1) -> (m ≫= f) st = (Throw e, st1).
Proof. unfold mbind, M_bind. now intros ->. Qed.

Lemma sends_app (l1 l2 : list Call) : sends (l1 ++ l2) = sends l1 ++ sends l2.
Proof. apply List.filter_app. Qed.

End MonadFacts.

(** ** The server resolver *)

Module ServerResolver.

Import StringFacts.

Lemma DEFAULT_GUILD_ALIAS_truthy (env : Env) :
  truthy (Some (DEFAULT_GUILD_ALIAS env)) = Some (DEFAULT_GUILD_ALIAS env).
Proof.
  unfold DEFAULT_GUILD_ALIAS.
  destruct (is_truthy (read (GUILDS env) "personal")); [reflexivity|].
  unfold or_else.
  destruct (truthy (head (keys (GUILDS env)))) as [k|] eqn:E; [|reflexivity].
  apply truthy_Some in E as [_ E]. now apply truthy_nonempty.
Qed.

Lemma guilds_get_id (cache : list Guild) (id : string) (g : Guild) :
  guilds_get cache id = Some g -> g_id g = id /\ In g cache.
Proof.
  unfold guilds_get. intros H. apply List.find_some in H as [Hin Heq].
  split; [now apply String.eqb_eq | exact Hin].
Qed.

(** What the alias branch does once the lower-cased identifier is a key
    with a non-empty ID: the cache lookup decides, nothing else is tried. *)
Lemma resolveGuild_alias {casing : Casing} env cache (serverAlias guildId : string) :
  serverAlias <> EmptyString ->
  get (GUILDS env) (toLowerCase serverAlias) = Some guildId ->
  guildId <> EmptyString ->
  resolveGuild env cache (Some serverAlias) =
  match guilds_get cache guildId with
  | Some guild => Ok guild
  | None =>
      Throw ("Guild alias " +:+ dq +:+ serverAlias +:+ dq +:+
             " (" +:+ guildId +:+ ") not found")
  end.
Proof.
  intros Hne Hget Hid. unfold resolveGuild.
  rewrite (truthy_nonempty _ Hne). cbv zeta.
  destruct (read_truthy_own _ _ _ Hget Hid) as [Hread Htrue].
  rewrite Htrue, Hread. reflexivity.
Qed.

(** The resolver takes its argument through its lower-casing, the test
    for digits and the test for emptiness only: two identifiers with one
    lower-casing resolve alike. *)
Lemma resolveGuild_same_lowering {casing : Casing} env cache (a b : string) :
  toLowerCase a = toLowerCase b ->
  handle (resolveGuild env cache (Some a)) =
  handle (resolveGuild env cache (Some b)).
Proof.
  intros E.
  destruct (decide (a = EmptyString)) as [Ha|Ha];
    destruct (decide (b = EmptyString)) as [Hb|Hb].
  - now subst.
  - exfalso. apply (toLowerCase_nonempty b Hb).
    now rewrite <- E, Ha, toLowerCase_empty.
  - exfalso. apply (toLowerCase_nonempty a Ha).
    now rewrite E, Hb, toLowerCase_empty.
  - unfold resolveGuild.
    rewrite (truthy_nonempty _ Ha), (truthy_nonempty _ Hb). cbv zeta.
    rewrite E.
    destruct (is_truthy (read (GUILDS env) (toLowerCase b))).
    + now destruct (as_id (read (GUILDS env) (toLowerCase b)) ≫= guilds_get cache).
    + destruct (test_digits a) eqn:Da.
      { pose proof (same_lowering_digits a b E Da) as <-. now rewrite Da. }
      destruct (test_digits b) eqn:Db.
      { pose proof (same_lowering_digits b a (eq_sym E) Db) as ->. congruence. }
      now destruct (List.find _ cache).
Qed.

(** C4 fails on the code for a registry key that is written with a
    capital.  With the registry [{"Work": "111"}] and the guild [111] in
    the cache, the identifiers [work] and [Work] both match the key up to
    case, yet neither returns the guild: the resolver looks the registry
    up under the lower-cased identifier, finds no key [work], goes on to
    the raw-ID and name strategies the claim rules out, and ends in the
    error of the last one, which itself lists [Work] as available.  The
    sibling path without an argument reads the registry under the key as
    written and returns the guild, and a key written in lower case is
    matched in any letter case. *)
Theorem C4_capital_key_is_never_matched :
  get (GUILDS env_work) "Work" = Some "111" /\
  guilds_get [office] "111" = Some office /\
  toLowerCase "work" = toLowerCase "Work" /\
  resolveGuild env_work [office] (Some "work") =
    Throw ("Server " +:+ dq +:+ "work" +:+ dq +:+ " not found. Available: Work") /\
  resolveGuild env_work [office] (Some "Work") =
    Throw ("Server " +:+ dq +:+ "Work" +:+ dq +:+ " not found. Available: Work") /\
  resolveGuild env_work [office] None = Ok office /\
  resolveGuild env_two [office] (Some "Personal") = Ok office.
Proof. repeat apply conj; reflexivity. Qed.

(** C5, as the specification words it, fails where no server is
    configured: the default alias is then [default], the call without an
    argument reads the registry under it, finds nothing and throws at
    once, while the call with [default] as the argument goes through the
    three strategies and returns a cached guild of that name. *)
Lemma C5_counterexample :
  GUILDS env_none = [] /\
  DEFAULT_GUILD_ALIAS env_none = "default" /\
  resolveGuild env_none [named_default] None =
    Throw ("Default guild " +:+ dq +:+ "default" +:+ dq +:+ " (undefined) not found") /\
  resolveGuild env_none [named_default] (Some (DEFAULT_GUILD_ALIAS env_none)) =
    Ok named_default /\
  handle (resolveGuild env_none [named_default] None) <>
  handle (resolveGuild env_none [named_default] (Some (DEFAULT_GUILD_ALIAS env_none))).
Proof. repeat apply conj; try reflexivity. discriminate. Qed.

(** C5 (amended): when the default alias is its own lower-casing and the
    registry maps it to a non-empty ID, the call without an argument and
    the call with the default alias return the same guild, or both fail:
    the guild is the cached one with the mapped ID, and both fail when the
    cache has none. *)
Theorem C5_default_alias_agrees {casing : Casing} env cache (guildId : string) :
  toLowerCase (DEFAULT_GUILD_ALIAS env) = DEFAULT_GUILD_ALIAS env ->
  get (GUILDS env) (DEFAULT_GUILD_ALIAS env) = Some guildId ->
  guildId <> EmptyString ->
  handle (resolveGuild env cache None) =
  handle (resolveGuild env cache (Some (DEFAULT_GUILD_ALIAS env))) /\
  handle (resolveGuild env cache None) = guilds_get cache guildId.
Proof.
  intros Hlow Hget Hid.
  assert (Hne : DEFAULT_GUILD_ALIAS env <> EmptyString).
  { pose proof (DEFAULT_GUILD_ALIAS_truthy env) as E.
    now apply truthy_Some in E as [_ E]. }
  rewrite (resolveGuild_alias env cache _ guildId Hne) by
    (rewrite ?Hlow; assumption).
  unfold resolveGuild at 1 2. change (truthy None) with (@None string).
  cbv beta iota zeta. rewrite (read_own _ _ _ Hget).
  change (as_id (VString guildId) ≫= guilds_get cache)
    with (guilds_get cache guildId).
  now destruct (guilds_get cache guildId).
Qed.

Lemma C5_default_alias_agrees_witness :
  DEFAULT_GUILD_ALIAS env_two = "personal" /\
  handle (resolveGuild env_two [office] None) = Some office /\
  handle (resolveGuild env_two [office] None) =
  handle (resolveGuild env_two [office] (Some (DEFAULT_GUILD_ALIAS env_two))) /\
  handle (resolveGuild env_two [office] None) = guilds_get [office] "111".
Proof.
  split; [reflexivity|]. split; [reflexivity|].
  exact (C5_default_alias_agrees env_two [office] "111"
           eq_refl eq_refl (fun E => ltac:(discriminate E))).
Defined.

(** C6, as the specification words it, fails for an alias whose
    upper-casing does not lower-case back: [straße] upper-cases to
    [STRASSE], which lower-cases to [strasse].  With [straße] registered
    for the guild [111], the alias resolves to the guild and its
    upper-casing to nothing. *)
Lemma C6_counterexample :
  In "straße" (keys (GUILDS env_strasse)) /\
  toUpperCase "straße" = "STRASSE" /\
  resolveGuild env_strasse [office] (Some "straße") = Ok office /\
  resolveGuild env_strasse [office] (Some (toUpperCase "straße")) =
    Throw ("Server " +:+ dq +:+ "STRASSE" +:+ dq +:+
           " not found. Available: straße") /\
  handle (resolveGuild env_strasse [office] (Some "straße")) <>
  handle (resolveGuild env_strasse [office] (Some (toUpperCase "straße"))).
Proof.
  split; [left; reflexivity|]. repeat apply conj; try reflexivity. discriminate.
Qed.

(** C6 (amended): for every alias [A] whose upper-casing lower-cases to
    what [A] lower-cases to, the server resolver returns the same guild for
    [A] and for [A] in upper case, and fails for the one exactly when it
    fails for the other; when the registry holds a non-empty ID under the
    lower-casing of [A], what both return is the cached guild with that
    ID. *)
Theorem C6_upper_case_alias {casing : Casing} env cache (A : string) :
  toLowerCase (toUpperCase A) = toLowerCase A ->
  handle (resolveGuild env cache (Some A)) =
  handle (resolveGuild env cache (Some (toUpperCase A))) /\
  (forall guildId,
     A <> EmptyString ->
     get (GUILDS env) (toLowerCase A) = Some guildId ->
     guildId <> EmptyString ->
     handle (resolveGuild env cache (Some (toUpperCase A))) =
     guilds_get cache guildId).
Proof.
  intros Hback.
  assert (Hsame := resolveGuild_same_lowering env cache A (toUpperCase A)
                     (eq_sym Hback)).
  split; [exact Hsame|].
  intros guildId Hne Hget Hid. rewrite <- Hsame.
  rewrite (resolveGuild_alias env cache A guildId Hne Hget Hid).
  now destruct (guilds_get cache guildId).
Qed.

Lemma C6_upper_case_alias_witness :
  In "personal" (keys (GUILDS env_two)) /\
  toUpperCase "personal" = "PERSONAL" /\
  handle (resolveGuild env_two [office] (Some "personal")) =
  handle (resolveGuild env_two [office] (Some "PERSONAL")) /\
  handle (resolveGuild env_two [office] (Some "PERSONAL")) = Some office.
Proof.
  split; [right; left; reflexivity|]. split; [reflexivity|].
  destruct (C6_upper_case_alias env_two [office] "personal")
    as [Hsame Hhit]; [reflexivity|].
  split; [exact Hsame|].
  apply (Hhit "111"); [discriminate | reflexivity | discriminate].
Defined.

End ServerResolver.

(** ** The channel resolver *)

Module ChannelResolver.

Import StringFacts MonadFacts.

Lemma name_matches_spec {casing : Casing} (ident : string) (c : Channel) :
  name_matches (toLowerCase (strip_hash ident)) c = true <->
  toLowerCase (c_name c) = toLowerCase (strip_hash ident) /\
  c_isTextBased c = true.
Proof.
  unfold name_matches. rewrite andb_true_iff. now rewrite String.eqb_eq.
Qed.

Lemma lookup_Some {casing : Casing} cache ident c :
  lookup_channel cache ident = Some c -> In c cache /\ channel_matches ident c.
Proof.
  unfold lookup_channel, channels_get.
  destruct (List.find (fun c0 => String.eqb (c_id c0) ident) cache) as [c0|] eqn:E.
  - intros [= <-]. apply List.find_some in E as [Hin Heq].
    split; [exact Hin|]. left. now apply String.eqb_eq.
  - intros H. apply List.find_some in H as [Hin Hm].
    split; [exact Hin|]. right. now apply name_matches_spec.
Qed.

Lemma lookup_None {casing : Casing} cache ident :
  lookup_channel cache ident = None <->
  forall c, In c cache -> ~ channel_matches ident c.
Proof.
  unfold lookup_channel, channels_get. split.
  - destruct (List.find (fun c0 => String.eqb (c_id c0) ident) cache) eqn:E;
      [discriminate|].
    intros Hn c Hin [Hid | Hname].
    + pose proof (List.find_none _ _ E c Hin) as H. simpl in H.
      apply String.eqb_neq in H. contradiction.
    + pose proof (List.find_none _ _ Hn c Hin) as H.
      apply (proj2 (name_matches_spec ident c)) in Hname. congruence.
  - intros Hall.
    destruct (List.find (fun c0 => String.eqb (c_id c0) ident) cache) as [c|] eqn:E.
    + apply List.find_some in E as [Hin Heq].
      exfalso. apply (Hall c Hin). left. now apply String.eqb_eq.
    + destruct (List.find (name_matches _) cache) as [c|] eqn:E2; [|reflexivity].
      apply List.find_some in E2 as [Hin Hm].
      exfalso. apply (Hall c Hin). right. now apply name_matches_spec.
Qed.

(** A channel that matches somewhere in the cache makes the lookup hit. *)
Lemma lookup_hits {casing : Casing} cache ident :
  (exists c, In c cache /\ channel_matches ident c) ->
  exists c, lookup_channel cache ident = Some c.
Proof.
  intros (c & Hin & Hm).
  destruct (lookup_channel cache ident) as [c'|] eqn:E; [now exists c'|].
  exfalso. exact (proj1 (lookup_None cache ident) E c Hin Hm).
Qed.

Lemma fetch_channels_Ok w guild refreshed st :
  channels_fetch w guild = Ok refreshed ->
  fetch_channels w guild st =
  (Ok refreshed,
   set_channels (g_id guild) refreshed (log_call (ChannelsFetch (g_id guild)) st)).
Proof.
  intros H. unfold fetch_channels, remote, modify, mbind, M_bind, mret, M_ret.
  now rewrite H.
Qed.

(** [resolveChannel] is the lookup on the cache, then, on a miss, one
    refresh and the lookup on the refreshed cache. *)
Lemma resolveChannel_phases {casing : Casing} w ident guild st :
  resolveChannel w ident guild st =
  match lookup_channel (g_channels guild) ident with
  | Some c => (Ok c, st)
  | None =>
      match fetch_channels w guild st with
      | (Ok cache, st') =>
          match lookup_channel cache ident with
          | Some c => (Ok c, st')
          | None =>
              (Throw ("Channel " +:+ dq +:+ ident +:+ dq +:+
                      " not found in " +:+ g_name guild), st')
          end
      | (Throw e, st') => (Throw e, st')
      end
  end.
Proof.
  unfold resolveChannel, lookup_channel.
  destruct (channels_get (g_channels guild) ident); [reflexivity|].
  destruct (List.find _ (g_channels guild)); [reflexivity|].
  unfold mbind at 1, M_bind at 1.
  destruct (fetch_channels w guild st) as [[cache|e] st']; [|reflexivity].
  destruct (channels_get cache ident); [reflexivity|].
  now destruct (List.find _ cache).
Qed.

(** C7: an identifier that matches no channel of the guild's cache but
    matches one once the channel list is refreshed is resolved by one call
    of [resolveChannel]: the call looks in the cache, refreshes it once
    (the only remote operation it logs), looks again in the refreshed
    cache and returns a matching channel found there. *)
Theorem C7_miss_refresh_hit {casing : Casing} w guild (ident : string) refreshed st :
  (forall c, In c (g_channels guild) -> ~ channel_matches ident c) ->
  channels_fetch w guild = Ok refreshed ->
  (exists c, In c refreshed /\ channel_matches ident c) ->
  exists c,
    resolveChannel w ident guild st =
      (Ok c, set_channels (g_id guild) refreshed
               (log_call (ChannelsFetch (g_id guild)) st)) /\
    In c refreshed /\ channel_matches ident c /\
    lookup_channel (g_channels guild) ident = None /\ lookup_channel refreshed ident = Some c.
Proof.
  intros Hmiss Hfetch Hhit.
  apply lookup_None in Hmiss. apply lookup_hits in Hhit as [c Hc].
  exists c. rewrite resolveChannel_phases, Hmiss.
  rewrite (fetch_channels_Ok _ _ _ _ Hfetch), Hc.
  destruct (lookup_Some _ _ _ Hc) as [Hin Hm]. auto.
Qed.

Lemma C7_miss_refresh_hit_witness :
  exists st',
    resolveChannel calm "#releases" office_cached (ready_state [office_cached])
      = (Ok releases, st') /\
    calls st' = [ChannelsFetch "111"].
Proof.
  destruct (C7_miss_refresh_hit calm office_cached "#releases"
              [general; releases] (ready_state [office_cached]))
    as (c & Hr & Hin & Hm & _ & Hl).
  - intros c [<- | []] [Hid | [Hname _]]; discriminate.
  - reflexivity.
  - exists releases. split; [right; left; reflexivity|].
    right. split; reflexivity.
  - assert (Some releases = Some c) as [= <-] by (rewrite <- Hl; reflexivity).
    eexists. split; [exact Hr | reflexivity].
Defined.

End ChannelResolver.

(** ** The readiness gate and the routing helper *)

Module Routing.

Import StringFacts MonadFacts ChannelResolver.

(** The poll loop ends within [polls timeoutMs] polls, however late the
    timers fire: the [k]-th poll comes no earlier than [200 * k] ms. *)
Lemma check_terminates w (timeoutMs : Z) (fuel k : nat) (elapsed : Z) :
  (1 <= fuel)%nat -> (polls timeoutMs <= fuel + k)%nat ->
  200 * Z.of_nat k <= elapsed ->
  check w timeoutMs fuel k elapsed <> None.
Proof.
  revert k elapsed.
  induction fuel as [|fuel IH]; intros k elapsed Hpos Hfuel Hel; [lia|].
  simpl. destruct (ready_at w k); [discriminate|].
  destruct (timeoutMs <? elapsed) eqn:Hlate; [discriminate|].
  apply Z.ltb_ge in Hlate.
  assert (Z.of_nat k <= timeoutMs / 200) by (apply Z.div_le_lower_bound; lia).
  unfold polls in Hfuel. apply IH; unfold polls; lia.
Qed.

Lemma waitForDiscord_cases w timeoutMs st :
  waitForDiscord w timeoutMs st = (Ok tt, st) /\ discordReady st = true \/
  waitForDiscord w timeoutMs st = (Ok tt, set_ready st) /\ discordReady st = false \/
  waitForDiscord w timeoutMs st = (Throw not_ready, st) /\ discordReady st = false.
Proof.
  unfold waitForDiscord. destruct (discordReady st); [now left | right].
  destruct (check w timeoutMs (polls timeoutMs) 0 0) as [[[]|e]|] eqn:E.
  - now left.
  - right. split; [|reflexivity]. f_equal. f_equal.
    clear -E. revert E. generalize 0. generalize 0%nat.
    generalize (polls timeoutMs).
    intros fuel. induction fuel as [|fuel IH]; intros k elapsed; simpl;
      [discriminate|].
    destruct (ready_at w k); [discriminate|].
    destruct (timeoutMs <? elapsed); [now intros [= <-] | apply IH].
  - exfalso. revert E. apply check_terminates; unfold polls; lia.
Qed.

Lemma waitForDiscord_Ok w timeoutMs st u st' :
  waitForDiscord w timeoutMs st = (Ok u, st') ->
  discordReady st' = true /\ calls st' = calls st /\
  guilds_cache st' = guilds_cache st /\ USER_MAPPINGS st' = USER_MAPPINGS st.
Proof.
  destruct (waitForDiscord_cases w timeoutMs st) as [[-> Hr] | [[-> _] | [-> _]]];
    intros [= <- <-]; auto.
Qed.

Lemma waitForDiscord_Throw w timeoutMs st e st' :
  waitForDiscord w timeoutMs st = (Throw e, st') ->
  e = not_ready /\ st' = st.
Proof.
  destruct (waitForDiscord_cases w timeoutMs st) as [[-> Hr] | [[-> _] | [-> _]]];
    intros [= <- <-]; auto.
Qed.


Lemma logged_refl st : logged st st [].
Proof. unfold logged. now rewrite app_nil_r. Qed.

Lemma fetch_channels_logged w guild st r st' :
  fetch_channels w guild st = (r, st') ->
  logged st st' [ChannelsFetch (g_id guild)].
Proof.
  unfold fetch_channels, remote, modify, mbind, M_bind, mret, M_ret.
  destruct (channels_fetch w guild); now intros [= <- <-].
Qed.

Lemma resolveChannel_logged {casing : Casing} w ident guild st r st' :
  resolveChannel w ident guild st = (r, st') ->
  logged st st' [] \/ logged st st' [ChannelsFetch (g_id guild)].
Proof.
  rewrite resolveChannel_phases.
  destruct (lookup_channel (g_channels guild) ident).
  - intros [= <- <-]. left. apply logged_refl.
  - destruct (fetch_channels w guild st) as [[cache|e] st1] eqn:E.
    + apply fetch_channels_logged in E.
      destruct (lookup_channel cache ident); intros [= <- <-]; now right.
    + apply fetch_channels_logged in E. intros [= <- <-]. now right.
Qed.

(** Routing makes no [send]; it logs at most one refresh. *)
Lemma resolveChannelWithServer_logged {casing : Casing} env w channelArg serverArg st r st' :
  resolveChannelWithServer env w channelArg serverArg st = (r, st') ->
  exists l, logged st st' l /\
            (l = [] \/ exists guild_id, l = [ChannelsFetch guild_id]).
Proof.
  unfold resolveChannelWithServer.
  unfold mbind at 1, M_bind at 1.
  destruct (waitForDiscord w 15000 st) as [[u|e] st1] eqn:Hw.
  - apply waitForDiscord_Ok in Hw as (_ & Hc & _ & _).
    unfold mbind, M_bind, get_state, lift_outcome, mret, M_ret, throw.
    destruct (resolveGuild env (guilds_cache st1) serverArg) as [guild|e].
    + destruct (truthy channelArg) as [c|].
      * intros H. apply resolveChannel_logged in H.
        unfold logged in *. rewrite <- Hc.
        destruct H as [H | H]; eauto.
      * destruct (option_bind _ _ _ (DEFAULT_CHANNEL_ID env));
          intros [= <- <-]; exists []; unfold logged;
          rewrite app_nil_r; auto.
    + intros [= <- <-]. exists []. unfold logged. rewrite app_nil_r. auto.
  - apply waitForDiscord_Throw in Hw as [-> ->].
    intros [= <- <-]. exists []. split; [apply logged_refl | auto].
Qed.

Lemma resolveChannelWithServer_sends {casing : Casing} env w channelArg serverArg st r st' :
  resolveChannelWithServer env w channelArg serverArg st = (r, st') ->
  sends (calls st') = sends (calls st).
Proof.
  intros H. apply resolveChannelWithServer_logged in H as (l & Hl & Hcase).
  unfold logged in Hl. rewrite Hl, sends_app.
  destruct Hcase as [-> | [g ->]]; simpl; now rewrite app_nil_r.
Qed.

End Routing.

(** ** Splitting long messages *)

Module Chunks.

Import StringFacts.

Lemma take_drop (n : nat) (s : string) : take n s +:+ drop n s = s.
Proof.
  revert s. induction n as [|n IH]; intros [|c s]; try reflexivity.
  simpl. now rewrite append_cons, IH.
Qed.

Lemma length_take (n : nat) (s : string) :
  String.length (take n s) = Nat.min n (String.length s).
Proof.
  revert s. induction n as [|n IH]; intros [|c s]; try reflexivity.
  simpl. now rewrite IH.
Qed.

Lemma length_drop (n : nat) (s : string) :
  String.length (drop n s) = (String.length s - n)%nat.
Proof.
  revert s. induction n as [|n IH]; intros [|c s]; try reflexivity.
  simpl. now rewrite IH.
Qed.

Section Size.

Variable n : nat.
Hypothesis n_pos : (0 < n)%nat.

(** The matches, put back together, are the message. *)
Lemma glue_match_chunks (fuel : nat) (msg : string) :
  (String.length msg <= fuel)%nat -> glue (match_chunks n fuel msg) = msg.
Proof.
  revert msg. induction fuel as [|fuel IH]; intros msg Hlen.
  - destruct msg; [reflexivity | simpl in Hlen; lia].
  - destruct msg as [|c r]; [reflexivity|].
    change (take n (String c r) +:+
            glue (match_chunks n fuel (drop n (String c r))) = String c r).
    rewrite IH; [apply take_drop|].
    rewrite length_drop. simpl in *. lia.
Qed.

Lemma match_chunks_bounded (fuel : nat) (msg : string) :
  Forall (fun chunk => (String.length chunk <= n)%nat) (match_chunks n fuel msg).
Proof.
  revert msg. induction fuel as [|fuel IH]; intros msg; [constructor|].
  destruct msg as [|c r]; [constructor|].
  change (Forall (fun chunk => (String.length chunk <= n)%nat)
            (take n (String c r) :: match_chunks n fuel (drop n (String c r)))).
  constructor; [rewrite length_take; lia | apply IH].
Qed.

(** No match is empty. *)
Lemma match_chunks_nonempty (fuel : nat) (msg : string) :
  Forall (fun chunk => chunk <> EmptyString) (match_chunks n fuel msg).
Proof.
  revert msg. induction fuel as [|fuel IH]; intros msg; [constructor|].
  destruct msg as [|c r]; [constructor|].
  change (Forall (fun chunk => chunk <> EmptyString)
            (take n (String c r) :: match_chunks n fuel (drop n (String c r)))).
  constructor; [|apply IH].
  generalize n_pos. generalize n. intros [|k] Hk; [lia | discriminate].
Qed.

Lemma match_chunks_large (fuel : nat) (msg : string) :
  (n < String.length msg)%nat -> (String.length msg <= fuel)%nat ->
  (2 <= length (match_chunks n fuel msg))%nat.
Proof.
  intros Hbig Hfuel.
  destruct fuel as [|[|fuel]]; [lia | lia |].
  destruct msg as [|c r]; [simpl in Hbig; lia|].
  change (match_chunks n (S (S fuel)) (String c r))
    with (take n (String c r) :: match_chunks n (S fuel) (drop n (String c r))).
  pose proof (length_drop n (String c r)) as Hd.
  destruct (drop n (String c r)) as [|c' r'].
  - change (String.length EmptyString) with O in Hd. lia.
  - simpl. lia.
Qed.

End Size.

End Chunks.

(** ** The tool dispatcher *)

Module Dispatcher.

Import StringFacts MonadFacts Routing Chunks.

(** A reply that is not tagged as an error comes from a body that
    returned: the wait succeeded and the tool's case ran to its end. *)
Lemma CallToolHandler_success {casing : Casing} env w r st reply st' :
  CallToolHandler env w r st = (reply, st') ->
  isError reply = false ->
  exists st1,
    waitForDiscord w 15000 st = (Ok tt, st1) /\
    dispatch env w r st1 = (Ok (text reply), st').
Proof.
  unfold CallToolHandler.
  destruct (try_body env w r st) as [[t|e] st2] eqn:E;
    intros [= <- <-]; [intros _ | discriminate].
  apply bind_Ok in E as ([] & st1 & Hw & Hd). eauto.
Qed.

Lemma send_logged w to p st r st' :
  send w to p st = (r, st') -> calls st' = calls st ++ [Send to p].
Proof. unfold send. now intros [= <- <-]. Qed.

Lemma send_each_logged w to chunks st u st' :
  send_each w to chunks st = (Ok u, st') ->
  calls st' = calls st ++ List.map (fun chunk => Send to (PText chunk)) chunks.
Proof.
  revert st. induction chunks as [|chunk rest IH]; intros st; simpl.
  - intros [= <- <-]. now rewrite app_nil_r.
  - intros H. apply bind_Ok in H as ([] & st1 & Hs & Hrest).
    apply send_logged in Hs. apply IH in Hrest.
    now rewrite Hrest, Hs, <- app_assoc.
Qed.

Lemma sends_of_sends to (chunks : list string) :
  sends (List.map (fun chunk => Send to (PText chunk)) chunks) =
  List.map (fun chunk => Send to (PText chunk)) chunks.
Proof. induction chunks as [|c r IH]; simpl; [reflexivity | now rewrite IH]. Qed.

(** The tool at work: 2000 units go out whole, 2001 in two chunks. *)
Example chunks_of_2001 :
  chunks_of (units 2001 "a"%char) = [units 2000 "a"%char; "a"].
Proof. vm_compute. reflexivity. Qed.

Example send_message_2000_and_2001 :
  let a n := {| args.channel := Some "general"; args.server := None;
                args.message := Some (units n "a"%char); args.code := None;
                args.language := None; args.title := None;
                args.file_path := None; args.image_path := None;
                args.user := None; args.alias := None; args.user_id := None;
                args.limit := None |} in
  let run n := CallToolHandler env_two calm
                 {| name := "discord_send_message"; arguments := Some (a n) |}
                 (ready_state [office_cached]) in
  calls (snd (run 2000%nat)) =
    [Send (ToChannel general) (PText (units 2000 "a"%char))] /\
  calls (snd (run 2001%nat)) =
    [Send (ToChannel general) (PText (units 2000 "a"%char));
     Send (ToChannel general) (PText "a")].
Proof. split; vm_compute; reflexivity. Qed.

(** What the tool has to send for a message is a list of chunks of the
    message: none longer than 2000 units, the message itself when it is
    within the limit, at least two otherwise. *)
Lemma expected_texts_chunks (msg : string) :
  glue (expected_texts msg) = msg /\
  Forall (fun chunk => (String.length chunk <= 2000)%nat) (expected_texts msg) /\
  ((String.length msg <= 2000)%nat -> expected_texts msg = [msg]) /\
  ((2000 < String.length msg)%nat -> (2 <= length (expected_texts msg))%nat).
Proof.
  unfold expected_texts.
  destruct (Nat.leb (String.length msg) 2000) eqn:Hlen.
  - apply Nat.leb_le in Hlen. split; [|split; [|split]].
    + simpl. apply append_empty_r.
    + constructor; [exact Hlen | constructor].
    + reflexivity.
    + lia.
  - apply Nat.leb_gt in Hlen. unfold chunks_of. split; [|split; [|split]].
    + apply glue_match_chunks; lia.
    + apply match_chunks_bounded; lia.
    + lia.
    + intros _. apply match_chunks_large; lia.
Qed.

(** Where no [send] to a target fails, the chunks all go out. *)
Lemma send_each_succeeds w to (chunks : list string) st :
  (forall n payload, channel_send w n to payload = Ok tt) ->
  exists st',
    send_each w to chunks st = (Ok tt, st') /\
    calls st' = calls st ++ List.map (fun chunk => Send to (PText chunk)) chunks.
Proof.
  intros Hok. revert st. induction chunks as [|chunk rest IH]; intros st.
  - exists st. split; [reflexivity | now rewrite app_nil_r].
  - destruct (IH (log_call (Send to (PText chunk)) st)) as (st' & Hrun & Hlog).
    exists st'. split.
    + simpl. unfold mbind, M_bind, send. now rewrite Hok.
    + rewrite Hlog. simpl. now rewrite <- app_assoc.
Qed.

(** The send-message case, once the channel is known. *)
Lemma send_message_texts {casing : Casing} env w a (msg : string) st channel st2 r st' :
  args.message a = Some msg ->
  resolveChannelWithServer env w (args.channel a) (args.server a) st
    = (Ok channel, st2) ->
  discord_send_message env w a st = (Ok r, st') ->
  calls st' =
    calls st2 ++
    List.map (fun chunk => Send (ToChannel channel) (PText chunk))
             (expected_texts msg).
Proof.
  intros Hmsg Hroute. unfold discord_send_message, expected_texts.
  rewrite (bind_step _ _ _ _ _ Hroute), Hmsg. intros H.
  apply bind_Ok in H as ([] & st3 & Hsend & Hret). injection Hret as _ <-.
  destruct (Nat.leb (String.length msg) 2000).
  - now apply send_logged in Hsend.
  - now apply send_each_logged in Hsend.
Qed.

(** C2: the send-message tool sends a message as chunks of at most 2000
    units, in order.  Once routing has resolved the channel, the [send]
    calls of a call that reports success are, in order and all to that
    channel, chunks whose concatenation is the message and none of which
    is longer than 2000 units: the message whole, in exactly one call, when
    it has at most 2000 units, and at least two chunks when it is longer.
    And the tool does report success, having made those calls, whenever
    the channel resolves and the platform refuses no [send]. *)
Theorem C2_send_message_chunks {casing : Casing} env w a (msg : string) st :
  args.message a = Some msg ->
  let request := {| name := "discord_send_message"; arguments := Some a |} in
  let in_chunks (channel : Channel) (before after : list Call) :=
    exists chunks,
      after =
        before ++ List.map (fun chunk => Send (ToChannel channel) (PText chunk)) chunks /\
      glue chunks = msg /\
      Forall (fun chunk => (String.length chunk <= 2000)%nat) chunks /\
      ((String.length msg <= 2000)%nat -> chunks = [msg]) /\
      ((2000 < String.length msg)%nat -> (2 <= length chunks)%nat) in
  (forall reply st',
     CallToolHandler env w request st = (reply, st') ->
     isError reply = false ->
     exists st1 channel st2,
       waitForDiscord w 15000 st = (Ok tt, st1) /\
       resolveChannelWithServer env w (args.channel a) (args.server a) st1
         = (Ok channel, st2) /\
       in_chunks channel (calls st2) (calls st') /\
       in_chunks channel (sends (calls st)) (sends (calls st'))) /\
  (forall st1 channel st2,
     waitForDiscord w 15000 st = (Ok tt, st1) ->
     resolveChannelWithServer env w (args.channel a) (args.server a) st1
       = (Ok channel, st2) ->
     (forall n payload, channel_send w n (ToChannel channel) payload = Ok tt) ->
     exists st',
       CallToolHandler env w request st =
         ({| text := Text (sent_to "Message" channel); isError := false |}, st') /\
       in_chunks channel (calls st2) (calls st')).
Proof.
  intros Hmsg. cbv zeta.
  destruct (expected_texts_chunks msg) as (Hglue & Hsize & Hone & Hmany).
  split.
  - intros reply st' H Hok.
    apply CallToolHandler_success in H as (st1 & Hw & Hd); [|exact Hok].
    pose proof (waitForDiscord_Ok _ _ _ _ _ Hw) as (_ & Hc1 & _ & _).
    change (discord_send_message env w a st1 = (Ok (text reply), st')) in Hd.
    pose proof Hd as Hd'. unfold discord_send_message in Hd'.
    apply bind_Ok in Hd' as (channel & st2 & Hroute & _).
    pose proof (send_message_texts _ _ _ _ _ _ _ _ _ Hmsg Hroute Hd) as Hlog.
    exists st1, channel, st2. split; [exact Hw|]. split; [exact Hroute|].
    split.
    + exists (expected_texts msg). auto.
    + exists (expected_texts msg). split; [|auto].
      rewrite Hlog, sends_app, sends_of_sends.
      now rewrite (resolveChannelWithServer_sends _ _ _ _ _ _ _ Hroute), Hc1.
  - intros st1 channel st2 Hw Hroute Hsend.
    assert (Hrun : exists st',
              discord_send_message env w a st1 =
                (Ok (Text (sent_to "Message" channel)), st') /\
              calls st' =
                calls st2 ++
                List.map (fun chunk => Send (ToChannel channel) (PText chunk))
                         (expected_texts msg)).
    { unfold discord_send_message, expected_texts.
      rewrite (bind_step _ _ _ _ _ Hroute), Hmsg.
      destruct (Nat.leb (String.length msg) 2000).
      - exists (log_call (Send (ToChannel channel) (PText msg)) st2).
        split; [|reflexivity].
        unfold mbind, M_bind, send. now rewrite Hsend.
      - destruct (send_each_succeeds w (ToChannel channel) (chunks_of msg) st2 Hsend)
          as (st' & Hrun & Hlog).
        exists st'. split; [|exact Hlog].
        now rewrite (bind_step _ _ _ _ _ Hrun). }
    destruct Hrun as (st' & Hrun & Hlog). exists st'. split.
    + unfold CallToolHandler, try_body. rewrite (bind_step _ _ _ _ _ Hw).
      change (dispatch env w _ st1) with (discord_send_message env w a st1).
      now rewrite Hrun.
    + exists (expected_texts msg). auto.
Qed.

Lemma C2_send_message_chunks_witness :
  let long := units 2001 "a"%char in
  let a := {| args.channel := Some "general"; args.server := None;
              args.message := Some long; args.code := None;
              args.language := None; args.title := None;
              args.file_path := None; args.image_path := None;
              args.user := None; args.alias := None; args.user_id := None;
              args.limit := None |} in
  let run := CallToolHandler env_two calm
               {| name := "discord_send_message"; arguments := Some a |}
               (ready_state [office_cached]) in
  String.length long = 2001%nat /\
  isError (fst run) = false /\
  calls (snd run) =
    [Send (ToChannel general) (PText (units 2000 "a"%char));
     Send (ToChannel general) (PText "a")] /\
  exists chunks,
    calls (snd run) =
      List.map (fun chunk => Send (ToChannel general) (PText chunk)) chunks /\
    glue chunks = long /\ (2 <= length chunks)%nat.
Proof.
  intros long a run. split; [vm_compute; reflexivity|].
  destruct (C2_send_message_chunks env_two calm a long
              (ready_state [office_cached]) eq_refl) as [_ Hforward].
  destruct (Hforward (ready_state [office_cached]) general
              (ready_state [office_cached]))
    as (st' & Hrun & Hchunks); [reflexivity | reflexivity | reflexivity |].
  cbv beta zeta in Hchunks.
  destruct Hchunks as (chunks & Hlog & Hglue & _ & _ & Hmany).
  assert (Hst : snd run = st') by (unfold run; now rewrite Hrun).
  split; [vm_compute; reflexivity|]. split; [vm_compute; reflexivity|].
  exists chunks. rewrite Hst. split; [exact Hlog|]. split; [exact Hglue|].
  apply Hmany. vm_compute. lia.
Defined.

(** C3: a code block whose rendering is longer than 2000 units goes out
    as one attachment and is never split.  The rendering is the code
    between two fences of three backticks, the opening one followed by the
    language, with the title in bold on a line before it when a title is
    given.  When it has more than 2000 units, a call that resolves its
    channel makes exactly one [send] to that channel: the bolded title (if
    any) as content and one attachment, named [code.<language>], or
    [code.txt] without a language, that holds the raw code; the reply is
    the outcome of that [send].  A call that does not resolve its channel
    makes no [send] and replies with an error. *)
Theorem C3_long_code_is_one_attachment {casing : Casing} env w a (code : string) st :
  args.code a = Some code ->
  let fenced :=
    backticks +:+
    match truthy (args.language a) with
    | Some language => language
    | None => EmptyString
    end +:+ nl +:+ code +:+ nl +:+ backticks in
  let rendering :=
    match truthy (args.title a) with
    | Some title => "**" +:+ title +:+ "**" +:+ nl +:+ fenced
    | None => fenced
    end in
  (2000 < String.length rendering)%nat ->
  let payload :=
    POptions
      match truthy (args.title a) with
      | Some title => Some ("**" +:+ title +:+ "**")
      | None => None
      end
      []
      [FromBuffer code
         match truthy (args.language a) with
         | Some language => "code." +:+ language
         | None => "code.txt"
         end] in
  let request := {| name := "discord_send_code"; arguments := Some a |} in
  (forall st1 channel st2,
     waitForDiscord w 15000 st = (Ok tt, st1) ->
     resolveChannelWithServer env w (args.channel a) (args.server a) st1
       = (Ok channel, st2) ->
     CallToolHandler env w request st =
     (match channel_send w (length (calls st2)) (ToChannel channel) payload with
      | Ok _ =>
          {| text := Text (sent_to "Code snippet" channel); isError := false |}
      | Throw e => error_reply e
      end,
      log_call (Send (ToChannel channel) payload) st2)) /\
  (forall reply st',
     CallToolHandler env w request st = (reply, st') ->
     (exists st1 channel st2,
        waitForDiscord w 15000 st = (Ok tt, st1) /\
        resolveChannelWithServer env w (args.channel a) (args.server a) st1
          = (Ok channel, st2) /\
        sends (calls st') = sends (calls st) ++ [Send (ToChannel channel) payload]) \/
     (isError reply = true /\ sends (calls st') = sends (calls st))).
Proof.
  intros Hcode. cbv zeta. intros Hlong.
  assert (Hfull : Nat.ltb 2000 (String.length (fullMessage a)) = true).
  { apply Nat.ltb_lt. unfold fullMessage, formatCodeBlock, bold, or_else, show.
    rewrite Hcode. revert Hlong.
    destruct (truthy (args.title a)); [rewrite !append_assoc|]; trivial. }
  assert (Hpayload :
    POptions (bold <$> truthy (args.title a)) [] [FromBuffer code ("code" +:+ ext a)] =
    POptions
      match truthy (args.title a) with
      | Some title => Some ("**" +:+ title +:+ "**")
      | None => None
      end
      []
      [FromBuffer code
         match truthy (args.language a) with
         | Some language => "code." +:+ language
         | None => "code.txt"
         end]).
  { unfold ext, bold.
    destruct (truthy (args.title a)); destruct (truthy (args.language a));
      reflexivity. }
  assert (Hforward : forall st1 channel st2,
    waitForDiscord w 15000 st = (Ok tt, st1) ->
    resolveChannelWithServer env w (args.channel a) (args.server a) st1
      = (Ok channel, st2) ->
    CallToolHandler env w {| name := "discord_send_code"; arguments := Some a |} st =
    (match channel_send w (length (calls st2)) (ToChannel channel)
             (POptions (bold <$> truthy (args.title a)) []
                       [FromBuffer code ("code" +:+ ext a)]) with
     | Ok _ =>
         {| text := Text (sent_to "Code snippet" channel); isError := false |}
     | Throw e => error_reply e
     end,
     log_call (Send (ToChannel channel)
                 (POptions (bold <$> truthy (args.title a)) []
                           [FromBuffer code ("code" +:+ ext a)])) st2)).
  { intros st1 channel st2 Hw Hroute.
    unfold CallToolHandler, try_body. rewrite (bind_step _ _ _ _ _ Hw).
    change (dispatch env w _ st1) with (discord_send_code env w a st1).
    unfold discord_send_code. rewrite (bind_step _ _ _ _ _ Hroute), Hfull, Hcode.
    unfold mbind, M_bind, send, mret, M_ret.
    now destruct (channel_send w (length (calls st2)) (ToChannel channel) _). }
  rewrite <- Hpayload. split; [exact Hforward|].
  intros reply st' H.
  destruct (waitForDiscord w 15000 st) as [[[]|e] st1] eqn:Hw.
  - pose proof (waitForDiscord_Ok _ _ _ _ _ Hw) as (_ & Hc1 & _ & _).
    destruct (resolveChannelWithServer env w (args.channel a) (args.server a) st1)
      as [[channel|e] st2] eqn:Hroute;
      pose proof (resolveChannelWithServer_sends _ _ _ _ _ _ _ Hroute) as Hs2.
    + left. exists st1, channel, st2. split; [reflexivity|].
      split; [exact Hroute|].
      rewrite (Hforward st1 channel st2 eq_refl Hroute) in H.
      injection H as _ <-. simpl calls.
      rewrite sends_app, Hs2, Hc1. reflexivity.
    + right. unfold CallToolHandler, try_body in H.
      rewrite (bind_step _ _ _ _ _ Hw) in H.
      change (dispatch env w _ st1) with (discord_send_code env w a st1) in H.
      unfold discord_send_code in H. rewrite (bind_fail _ _ _ _ _ Hroute) in H.
      injection H as <- <-. split; [reflexivity | congruence].
  - right. unfold CallToolHandler, try_body in H.
    rewrite (bind_fail _ _ _ _ _ Hw) in H.
    apply waitForDiscord_Throw in Hw as [_ ->].
    injection H as <- <-. split; reflexivity.
Qed.

Lemma C3_long_code_is_one_attachment_witness :
  let code := units 1993 "x"%char in
  let a language title :=
    {| args.channel := Some "general"; args.server := None;
       args.message := None; args.code := Some code;
       args.language := language; args.title := title;
       args.file_path := None; args.image_path := None;
       args.user := None; args.alias := None; args.user_id := None;
       args.limit := None |} in
  let run language title :=
    CallToolHandler env_two calm
      {| name := "discord_send_code"; arguments := Some (a language title) |}
      (ready_state [office_cached]) in
  String.length (backticks +:+ nl +:+ code +:+ nl +:+ backticks) = 2001%nat /\
  isError (fst (run None None)) = false /\
  calls (snd (run None None)) =
    [Send (ToChannel general) (POptions None [] [FromBuffer code "code.txt"])] /\
  isError (fst (run (Some "py") (Some "demo"))) = false /\
  calls (snd (run (Some "py") (Some "demo"))) =
    [Send (ToChannel general)
          (POptions (Some "**demo**") [] [FromBuffer code "code.py"])].
Proof.
  intros code a run. split; [vm_compute; reflexivity|].
  destruct (C3_long_code_is_one_attachment env_two calm (a None None) code
              (ready_state [office_cached]) eq_refl) as [Hplain _];
    [vm_compute; lia|].
  destruct (C3_long_code_is_one_attachment env_two calm
              (a (Some "py") (Some "demo")) code
              (ready_state [office_cached]) eq_refl) as [Htitled _];
    [vm_compute; lia|].
  unfold run.
  rewrite (Hplain (ready_state [office_cached]) general
             (ready_state [office_cached]) eq_refl eq_refl).
  rewrite (Htitled (ready_state [office_cached]) general
             (ready_state [office_cached]) eq_refl eq_refl).
  repeat apply conj; reflexivity.
Defined.

Lemma sorted_snoc {A : Type} (R : A -> A -> Prop) (l : list A) (a : A) :
  StronglySorted R l -> Forall (fun x => R x a) l ->
  StronglySorted R (l ++ [a]).
Proof.
  induction l as [|x l IH]; intros Hs Hall; simpl.
  - repeat constructor.
  - apply StronglySorted_inv in Hs as [Hs Hx].
    inversion Hall as [|? ? Hxa Hl]; subst.
    constructor; [now apply IH|].
    apply Forall_app. split; [exact Hx | now constructor].
Qed.

Lemma sorted_rev {A : Type} (R : A -> A -> Prop) (l : list A) :
  StronglySorted R l -> StronglySorted (fun x y => R y x) (List.rev l).
Proof.
  induction l as [|x l IH]; intros Hs; simpl; [constructor|].
  apply StronglySorted_inv in Hs as [Hs Hx].
  apply sorted_snoc; [now apply IH|].
  now apply List.Forall_rev.
Qed.

Lemma remote_Ok {A : Type} (c : Call) (r : outcome A) st a st' :
  remote c r st = (Ok a, st') -> r = Ok a /\ st' = log_call c st.
Proof. unfold remote. now intros [= -> <-]. Qed.

(** C8: whenever the read-messages tool reports success, the records it
    emits are those of the fetched messages taken in reverse: the fetch
    (the last remote operation of the call) returns them newest first and
    the reply lists them oldest first, each record holding the author's
    name, the content, the ISO rendering of the creation time and the
    attachment URLs. *)
Theorem C8_read_messages_oldest_first {casing : Casing} env w a st reply st' :
  CallToolHandler env w
    {| name := "discord_read_messages"; arguments := Some a |} st = (reply, st') ->
  isError reply = false ->
  exists channel fetched,
    let limit := Z.min (number_or (args.limit a) 10) 50 in
    last (calls st') = Some (MessagesFetch (c_id channel) limit) /\
    messages_fetch w channel limit = Ok fetched /\
    text reply =
      TextJSON ""
        (JArr (List.map
                 (fun m =>
                    JObj [("author", JStr (u_username (msg_author m)));
                          ("content", JStr (msg_content m));
                          ("timestamp", JStr (toISOString w (msg_createdAt m)));
                          ("attachments",
                           JArr (List.map JStr (msg_attachments m)))])
                 (List.rev fetched))) /\
    (newest_first fetched -> oldest_first (List.rev fetched)).
Proof.
  intros H Hok.
  apply CallToolHandler_success in H as (st1 & Hw & Hd); [|exact Hok].
  change (discord_read_messages env w a st1 = (Ok (text reply), st')) in Hd.
  unfold discord_read_messages in Hd.
  apply bind_Ok in Hd as (channel & st2 & Hroute & Hd).
  apply bind_Ok in Hd as (fetched & st3 & Hfetch & Hret).
  apply remote_Ok in Hfetch as [Hfetch ->].
  injection Hret as Htext <-.
  exists channel, fetched. cbv zeta. split; [|split; [|split]].
  - simpl. apply last_snoc.
  - exact Hfetch.
  - now rewrite <- Htext.
  - apply sorted_rev.
Qed.

Lemma C8_read_messages_oldest_first_witness :
  let a := {| args.channel := Some "general"; args.server := None;
              args.message := None; args.code := None;
              args.language := None; args.title := None;
              args.file_path := None; args.image_path := None;
              args.user := None; args.alias := None; args.user_id := None;
              args.limit := None |} in
  let run := CallToolHandler env_two chatty
               {| name := "discord_read_messages"; arguments := Some a |}
               (ready_state [office_cached]) in
  isError (fst run) = false /\
  text (fst run) =
    TextJSON "" (JArr [message_record chatty early; message_record chatty late]) /\
  oldest_first [early; late].
Proof.
  intros a run. split; [reflexivity|].
  destruct (C8_read_messages_oldest_first env_two chatty a
              (ready_state [office_cached]) (fst run) (snd run))
    as (channel & fetched & _ & Hf & Ht & Hs);
    [apply surjective_pairing | reflexivity |].
  injection Hf as <-. split; [exact Ht|].
  apply Hs. unfold newest_first.
  repeat constructor; simpl; lia.
Defined.

Lemma discord_list_members_logged {casing : Casing} env w a st r st' :
  discord_list_members env w a st = (r, st') ->
  (exists guild,
     calls st' = calls st ++
       [MembersFetch (g_id guild) None (Z.min (number_or (args.limit a) 50) 100)]) \/
  (calls st' = calls st /\ exists e, r = Throw e).
Proof.
  unfold discord_list_members, get_state, lift_outcome, remote, mbind, M_bind,
    mret, M_ret.
  destruct (resolveGuild env (guilds_cache st) (args.server a)) as [guild|e].
  - destruct (members_fetch w guild None _); intros [= <- <-]; left; now exists guild.
  - intros [= <- <-]. right. eauto.
Qed.

Lemma refresh_only (pre : list Call) :
  (pre = [] \/ exists guild_id, pre = [ChannelsFetch guild_id]) ->
  sends pre = [] /\
  forall channel_id limit, ~ In (MessagesFetch channel_id limit) pre.
Proof.
  intros [-> | [g ->]]; (split; [reflexivity|]); intros c l; simpl.
  - tauto.
  - intros [H | []]. discriminate.
Qed.

Lemma discord_read_messages_logged {casing : Casing} env w a st r st' :
  discord_read_messages env w a st = (r, st') ->
  exists pre, sends pre = [] /\
    (forall channel_id limit, ~ In (MessagesFetch channel_id limit) pre) /\
    ((exists channel,
        calls st' = calls st ++ pre ++
          [MessagesFetch (c_id channel) (Z.min (number_or (args.limit a) 10) 50)]) \/
     (calls st' = calls st ++ pre /\ exists e, r = Throw e)).
Proof.
  unfold discord_read_messages. intros H.
  destruct (resolveChannelWithServer env w (args.channel a) (args.server a) st)
    as [[channel|e] st1] eqn:Hr;
    destruct (resolveChannelWithServer_logged _ _ _ _ _ _ _ Hr)
      as (pre & Hpre & Hcase);
    exists pre; unfold logged in Hpre.
  - rewrite (bind_step _ _ _ _ _ Hr) in H.
    unfold remote, mbind, M_bind, mret, M_ret in H.
    destruct (refresh_only pre Hcase) as [Hs Hm].
    split; [exact Hs|]. split; [exact Hm|].
    left. exists channel.
    destruct (messages_fetch w channel _); injection H as _ <-;
      simpl; now rewrite Hpre, <- app_assoc.
  - rewrite (bind_fail _ _ _ _ _ Hr) in H. injection H as <- <-.
    destruct (refresh_only pre Hcase) as [Hs Hm].
    split; [exact Hs|]. split; [exact Hm|].
    right. eauto.
Qed.

(** What the handler adds to the log for the two tools that take a limit. *)
Lemma CallToolHandler_list_members_logged {casing : Casing} env w a st reply st' :
  CallToolHandler env w
    {| name := "discord_list_members"; arguments := Some a |} st = (reply, st') ->
  (exists guild,
     calls st' = calls st ++
       [MembersFetch (g_id guild) None (Z.min (number_or (args.limit a) 50) 100)]) \/
  (calls st' = calls st /\ isError reply = true).
Proof.
  unfold CallToolHandler, try_body. intros H.
  destruct (waitForDiscord w 15000 st) as [[[]|e] st1] eqn:Hw.
  - rewrite (bind_step _ _ _ _ _ Hw) in H.
    apply waitForDiscord_Ok in Hw as (_ & Hc & _ & _).
    change (dispatch env w _ st1) with (discord_list_members env w a st1) in H.
    destruct (discord_list_members env w a st1) as [r st2] eqn:E.
    apply discord_list_members_logged in E as [[guild E] | [E [e ->]]].
    + left. exists guild. rewrite <- Hc. destruct r; now injection H as _ <-.
    + right. injection H as <- <-. split; [congruence | reflexivity].
  - rewrite (bind_fail _ _ _ _ _ Hw) in H.
    apply waitForDiscord_Throw in Hw as [_ ->].
    right. now injection H as <- <-.
Qed.

Lemma CallToolHandler_read_messages_logged {casing : Casing} env w a st reply st' :
  CallToolHandler env w
    {| name := "discord_read_messages"; arguments := Some a |} st = (reply, st') ->
  exists pre,
    (forall channel_id limit, ~ In (MessagesFetch channel_id limit) pre) /\
    ((exists channel,
        calls st' = calls st ++ pre ++
          [MessagesFetch (c_id channel) (Z.min (number_or (args.limit a) 10) 50)]) \/
     (calls st' = calls st ++ pre /\ isError reply = true)).
Proof.
  unfold CallToolHandler, try_body. intros H.
  destruct (waitForDiscord w 15000 st) as [[[]|e] st1] eqn:Hw.
  - rewrite (bind_step _ _ _ _ _ Hw) in H.
    apply waitForDiscord_Ok in Hw as (_ & Hc & _ & _).
    change (dispatch env w _ st1) with (discord_read_messages env w a st1) in H.
    destruct (discord_read_messages env w a st1) as [r st2] eqn:E.
    apply discord_read_messages_logged in E
      as (pre & _ & Hpre & [[channel E] | [E [e ->]]]); exists pre;
      (split; [exact Hpre|]).
    + left. exists channel. rewrite <- Hc. destruct r; now injection H as _ <-.
    + right. injection H as <- <-. split; [congruence | reflexivity].
  - rewrite (bind_fail _ _ _ _ _ Hw) in H.
    apply waitForDiscord_Throw in Hw as [_ ->].
    exists []. split; [intros c l []|]. right. injection H as <- <-.
    split; [now rewrite app_nil_r | reflexivity].
Qed.

(** C10: for list-members and read-messages, a limit of 0 is handled as an
    absent limit.  The handler does the same with either.  With a limit of
    0 supplied, a list-members call whose server resolves asks the platform
    for 50 members of that guild, and a read-messages call whose channel
    resolves asks it for 10 messages of that channel: the default, the
    value the cap (100, 50) is applied to.  The fetch is the next remote
    operation in both, and the reply is its outcome: the records of what
    it returned, or its error.  Whatever else happens, no fetch of members
    or messages with another limit is made. *)
Theorem C10_zero_limit_is_default {casing : Casing} env w a st :
  let zero := args.set_limit (Some 0) a in
  let absent := args.set_limit None a in
  let members l := {| name := "discord_list_members"; arguments := Some l |} in
  let messages l := {| name := "discord_read_messages"; arguments := Some l |} in
  CallToolHandler env w (members zero) st = CallToolHandler env w (members absent) st /\
  CallToolHandler env w (messages zero) st = CallToolHandler env w (messages absent) st /\
  Z.min (number_or (Some 0) 50) 100 = 50 /\
  Z.min (number_or (Some 0) 10) 50 = 10 /\
  (forall st1 guild,
     waitForDiscord w 15000 st = (Ok tt, st1) ->
     resolveGuild env (guilds_cache st1) (args.server a) = Ok guild ->
     CallToolHandler env w (members zero) st =
     (match members_fetch w guild None 50 with
      | Ok fetched =>
          {| text := TextJSON ("Members in " +:+ g_name guild +:+ ":" +:+ nl)
                       (JArr (List.map member_record fetched));
             isError := false |}
      | Throw e => error_reply e
      end,
      log_call (MembersFetch (g_id guild) None 50) st1)) /\
  (forall st1 channel st2,
     waitForDiscord w 15000 st = (Ok tt, st1) ->
     resolveChannelWithServer env w (args.channel a) (args.server a) st1
       = (Ok channel, st2) ->
     CallToolHandler env w (messages zero) st =
     (match messages_fetch w channel 10 with
      | Ok fetched =>
          {| text := TextJSON EmptyString
                       (JArr (List.map (message_record w) (List.rev fetched)));
             isError := false |}
      | Throw e => error_reply e
      end,
      log_call (MessagesFetch (c_id channel) 10) st2)) /\
  (forall reply st',
     CallToolHandler env w (members zero) st = (reply, st') ->
     (exists guild, calls st' = calls st ++ [MembersFetch (g_id guild) None 50]) \/
     (calls st' = calls st /\ isError reply = true)) /\
  (forall reply st',
     CallToolHandler env w (messages zero) st = (reply, st') ->
     exists pre,
       (forall channel_id limit, ~ In (MessagesFetch channel_id limit) pre) /\
       ((exists channel,
           calls st' = calls st ++ pre ++ [MessagesFetch (c_id channel) 10]) \/
        (calls st' = calls st ++ pre /\ isError reply = true))).
Proof.
  cbv zeta. split; [reflexivity|]. split; [reflexivity|].
  split; [reflexivity|]. split; [reflexivity|]. split; [|split; [|split]].
  - intros st1 guild Hw Hg.
    unfold CallToolHandler, try_body. rewrite (bind_step _ _ _ _ _ Hw).
    change (dispatch env w _ st1)
      with (discord_list_members env w (args.set_limit (Some 0) a) st1).
    unfold discord_list_members, get_state, lift_outcome, remote, mbind, M_bind,
      mret, M_ret.
    change (args.server (args.set_limit (Some 0) a)) with (args.server a).
    rewrite Hg. cbv zeta.
    change (Z.min (number_or (args.limit (args.set_limit (Some 0) a)) 50) 100)
      with 50.
    now destruct (members_fetch w guild None 50).
  - intros st1 channel st2 Hw Hroute.
    unfold CallToolHandler, try_body. rewrite (bind_step _ _ _ _ _ Hw).
    change (dispatch env w _ st1)
      with (discord_read_messages env w (args.set_limit (Some 0) a) st1).
    unfold discord_read_messages.
    change (args.server (args.set_limit (Some 0) a)) with (args.server a).
    change (args.channel (args.set_limit (Some 0) a)) with (args.channel a).
    rewrite (bind_step _ _ _ _ _ Hroute). cbv zeta.
    change (Z.min (number_or (args.limit (args.set_limit (Some 0) a)) 10) 50)
      with 10.
    unfold remote, mbind, M_bind, mret, M_ret.
    now destruct (messages_fetch w channel 10).
  - intros reply st' H.
    exact (CallToolHandler_list_members_logged _ _ _ _ _ _ H).
  - intros reply st' H.
    exact (CallToolHandler_read_messages_logged _ _ _ _ _ _ H).
Qed.

Lemma C10_zero_limit_is_default_witness :
  let a := {| args.channel := Some "general"; args.server := None;
              args.message := None; args.code := None;
              args.language := None; args.title := None;
              args.file_path := None; args.image_path := None;
              args.user := None; args.alias := None; args.user_id := None;
              args.limit := Some 7 |} in
  let zero := args.set_limit (Some 0) a in
  let st := ready_state [office_cached] in
  let members := CallToolHandler env_two chatty
                   {| name := "discord_list_members"; arguments := Some zero |} st in
  let messages := CallToolHandler env_two chatty
                    {| name := "discord_read_messages"; arguments := Some zero |} st in
  isError (fst members) = false /\
  calls (snd members) = [MembersFetch "111" None 50] /\
  fst messages =
    {| text := TextJSON EmptyString
                 (JArr [message_record chatty early; message_record chatty late]);
       isError := false |} /\
  calls (snd messages) = [MessagesFetch "900" 10].
Proof.
  intros a zero st members messages.
  destruct (C10_zero_limit_is_default env_two chatty a st)
    as (_ & _ & _ & _ & Hmembers & Hmessages & _).
  unfold members, messages, zero.
  rewrite (Hmembers st office_cached eq_refl eq_refl).
  rewrite (Hmessages st general st eq_refl eq_refl).
  repeat apply conj; reflexivity.
Defined.

(** *** Failures and the error reply *)

Lemma caught {casing : Casing} env w r st e st' :
  try_body env w r st = (Throw e, st') ->
  CallToolHandler env w r st = (error_reply e, st').
Proof. unfold CallToolHandler. now intros ->. Qed.












Lemma dispatch_failure_caught {casing : Casing} env w r st st1 e st' :
  waitForDiscord w 15000 st = (Ok tt, st1) ->
  dispatch env w r st1 = (Throw e, st') ->
  CallToolHandler env w r st = (error_reply e, st').
Proof.
  intros Hw Hd. apply caught. unfold try_body.
  now rewrite (bind_step _ _ _ _ _ Hw).
Qed.



End Dispatcher.

(** ** The user mapping table *)

Module UserMappings.

Import StringFacts MonadFacts.

(** The assignment of the add-user-alias tool keeps the keys lower-cased. *)
Lemma assign_lower_keys {casing : Casing} alias v st :
  lower_keys (USER_MAPPINGS st) ->
  lower_keys (USER_MAPPINGS (assign_mapping (toLowerCase alias) v st)).
Proof.
  intros Hinv k x. unfold assign_mapping.
  destruct (String.eqb (toLowerCase alias) "__proto__" && _)%bool; [apply Hinv|].
  simpl. destruct v as [id|].
  - destruct (decide (toLowerCase alias = k)) as [<- | Hne].
    + intros _. apply toLowerCase_idempotent.
    + rewrite lookup_insert_ne by exact Hne. apply Hinv.
  - destruct (decide (toLowerCase alias = k)) as [<- | Hne].
    + now rewrite lookup_delete_eq.
    + rewrite lookup_delete_ne by exact Hne. apply Hinv.
Qed.

(** An assignment touches the mapping table only. *)
Lemma assign_mapping_keeps (key : string) (v : option string) st :
  discordReady (assign_mapping key v st) = discordReady st /\
  calls (assign_mapping key v st) = calls st /\
  guilds_cache (assign_mapping key v st) = guilds_cache st.
Proof. unfold assign_mapping. destruct (_ && _)%bool; auto. Qed.

(** An assignment under a key other than [__proto__] stores the value. *)
Lemma assign_mapping_stores (key id : string) st :
  key <> "__proto__" ->
  USER_MAPPINGS (assign_mapping key (Some id) st) !! key = Some id /\
  forall k, k <> key ->
    USER_MAPPINGS (assign_mapping key (Some id) st) !! k = USER_MAPPINGS st !! k.
Proof.
  intros Hk. unfold assign_mapping.
  destruct (String.eqb_spec key "__proto__") as [E|_]; [contradiction|].
  simpl. split; [apply lookup_insert_eq|].
  intros k Hne. apply lookup_insert_ne. congruence.
Qed.

(** C9 fails on the code at start-up: the table is the configured object
    as parsed, so the key [John] is stored with its capital; the lookup
    lower-cases the query to [john], misses the entry, and the user the
    alias maps to is reported as not found.  The same alias added at run
    time is stored as [john] and found. *)
Theorem C9_configured_keys_are_stored_as_written :
  let st := set_ready (initial_state env_john [office]) in
  USER_MAPPINGS st !! "John" = Some "123" /\
  ~ lower_keys (USER_MAPPINGS st) /\
  fst (resolveUser env_john knows_john (Some "John") st) =
    Throw ("User " +:+ dq +:+ "John" +:+ dq +:+ " not found") /\
  let a := {| args.channel := None; args.server := None;
              args.message := None; args.code := None;
              args.language := None; args.title := None;
              args.file_path := None; args.image_path := None;
              args.user := None; args.alias := Some "John";
              args.user_id := Some "123"; args.limit := None |} in
  let st' := snd (discord_add_user_mapping a st) in
  USER_MAPPINGS st' !! "john" = Some "123" /\
  fst (resolveUser env_john knows_john (Some "John") st') = Ok john.
Proof.
  cbv zeta. split; [reflexivity|]. split; [|split; [|split]].
  - intros H. specialize (H "John" "123" eq_refl). discriminate.
  - vm_compute. reflexivity.
  - vm_compute. reflexivity.
  - vm_compute. reflexivity.
Qed.

End UserMappings.

(** ** What an invocation does to the state *)

Module Invariants.

Import StringFacts MonadFacts Routing.

Section Respects.

Variable R : State -> State -> Prop.
Hypothesis R_refl : forall st, R st st.
Hypothesis R_trans : forall st1 st2 st3, R st1 st2 -> R st2 st3 -> R st1 st3.
Hypothesis R_log : forall c st, R st (log_call c st).
Hypothesis R_ready : forall st, R st (set_ready st).
Hypothesis R_channels : forall guild_id chs st, R st (set_channels guild_id chs st).

Lemma respects_ret {A : Type} (a : A) : respects R (mret a : M A).
Proof. intros st r st' [= <- <-]. apply R_refl. Qed.

Lemma respects_throw {A : Type} (e : string) : respects R (throw e : M A).
Proof. intros st r st' [= <- <-]. apply R_refl. Qed.

Lemma respects_lift {A : Type} (o : outcome A) : respects R (lift_outcome o).
Proof. intros st r st' [= <- <-]. apply R_refl. Qed.

Lemma respects_get_state : respects R get_state.
Proof. intros st r st' [= <- <-]. apply R_refl. Qed.

Lemma respects_bind {A B : Type} (m : M A) (f : A -> M B) :
  respects R m -> (forall a, respects R (f a)) -> respects R (m ≫= f).
Proof.
  intros Hm Hf st r st'. unfold mbind, M_bind.
  destruct (m st) as [[a|e] st1] eqn:E.
  - intros H. exact (R_trans _ _ _ (Hm _ _ _ E) (Hf a _ _ _ H)).
  - intros [= <- <-]. exact (Hm _ _ _ E).
Qed.

Lemma respects_remote {A : Type} (c : Call) (o : outcome A) :
  respects R (remote c o).
Proof. intros st r st' [= <- <-]. apply R_log. Qed.

Lemma respects_send w to p : respects R (send w to p).
Proof. intros st r st' [= <- <-]. apply R_log. Qed.

Lemma respects_send_each w to chunks : respects R (send_each w to chunks).
Proof.
  induction chunks as [|chunk rest IH]; simpl.
  - apply respects_ret.
  - apply respects_bind; [apply respects_send | intros _; exact IH].
Qed.

Lemma respects_wait w timeoutMs : respects R (waitForDiscord w timeoutMs).
Proof.
  intros st r st' H.
  destruct (waitForDiscord_cases w timeoutMs st)
    as [[E _] | [[E _] | [E _]]]; rewrite E in H; injection H as <- <-;
    [apply R_refl | apply R_ready | apply R_refl].
Qed.

Lemma respects_fetch_channels w guild : respects R (fetch_channels w guild).
Proof.
  unfold fetch_channels. apply respects_bind; [apply respects_remote|].
  intros chs. apply respects_bind; [|intros _; apply respects_ret].
  intros st r st' [= <- <-]. apply R_channels.
Qed.

Lemma respects_fetch_user_or w id message :
  respects R (fetch_user_or w id message).
Proof.
  intros st r st'. unfold fetch_user_or.
  destruct (users_fetch w id); intros [= <- <-]; apply R_log.
Qed.

Lemma respects_search_guilds {casing : Casing} w nameOrId entries :
  respects R (search_guilds w nameOrId entries).
Proof.
  induction entries as [|[k guildId] rest IH]; simpl.
  - apply respects_ret.
  - apply respects_bind; [apply respects_get_state|]. intros st0.
    destruct (guilds_get (guilds_cache st0) guildId); [|exact IH].
    apply respects_bind; [apply respects_remote|]. intros members.
    destruct (List.find (member_matches nameOrId) members);
      [apply respects_ret | exact IH].
Qed.

(** One step of a proof that a handler keeps to [R]. *)
Ltac respects_step :=
  first
    [ apply respects_ret | apply respects_throw | apply respects_lift
    | apply respects_get_state | apply respects_remote | apply respects_send
    | apply respects_send_each | apply respects_wait
    | apply respects_fetch_channels | apply respects_fetch_user_or
    | apply respects_search_guilds
    | apply respects_bind; [|intros ?]
    | match goal with
      | |- respects _ (match ?x with _ => _ end) => destruct x
      end ].

Lemma respects_resolveChannel {casing : Casing} w ident guild :
  respects R (resolveChannel w ident guild).
Proof. unfold resolveChannel. repeat respects_step. Qed.

Lemma respects_resolveChannelWithServer {casing : Casing} env w channelArg serverArg :
  respects R (resolveChannelWithServer env w channelArg serverArg).
Proof.
  unfold resolveChannelWithServer.
  repeat first [apply respects_resolveChannel | respects_step].
Qed.

Lemma respects_resolveUser {casing : Casing} env w nameOrId :
  respects R (resolveUser env w nameOrId).
Proof. unfold resolveUser. repeat respects_step. Qed.

Ltac respects_handler :=
  cbv zeta;
  repeat first [ apply respects_resolveChannelWithServer
               | apply respects_resolveUser | respects_step ].

Lemma respects_send_message {casing : Casing} env w a : respects R (discord_send_message env w a).
Proof. unfold discord_send_message. respects_handler. Qed.

Lemma respects_send_code {casing : Casing} env w a : respects R (discord_send_code env w a).
Proof. unfold discord_send_code. respects_handler. Qed.

Lemma respects_send_file {casing : Casing} env w a : respects R (discord_send_file env w a).
Proof. unfold discord_send_file. respects_handler. Qed.

Lemma respects_send_image {casing : Casing} env w a : respects R (discord_send_image env w a).
Proof. unfold discord_send_image. respects_handler. Qed.

Lemma respects_send_dm {casing : Casing} env w a : respects R (discord_send_dm env w a).
Proof. unfold discord_send_dm. respects_handler. Qed.

Lemma respects_list_channels {casing : Casing} env w a : respects R (discord_list_channels env w a).
Proof. unfold discord_list_channels. respects_handler. Qed.

Lemma respects_list_members {casing : Casing} env w a : respects R (discord_list_members env w a).
Proof. unfold discord_list_members. respects_handler. Qed.

Lemma respects_list_servers env : respects R (discord_list_servers env).
Proof. unfold discord_list_servers. respects_handler. Qed.

Lemma respects_read_messages {casing : Casing} env w a : respects R (discord_read_messages env w a).
Proof. unfold discord_read_messages. respects_handler. Qed.

(** The [switch], for a relation that the assignment of the add-user-alias
    tool keeps to as well, or for any other tool. *)
Lemma respects_dispatch {casing : Casing} env w r :
  (name r = "discord_add_user_mapping" ->
   forall alias v st, R st (assign_mapping (toLowerCase alias) v st)) ->
  respects R (dispatch env w r).
Proof.
  intros Hadd. unfold dispatch, with_args.
  repeat match goal with
  | |- respects _ (if String.eqb (name r) ?t then _ else _) =>
      destruct (String.eqb_spec (name r) t)
  end;
  try (destruct (arguments r); [|apply respects_throw]);
  first [ apply respects_send_message | apply respects_send_code
        | apply respects_send_file | apply respects_send_image
        | apply respects_send_dm | apply respects_list_channels
        | apply respects_list_members | apply respects_list_servers
        | apply respects_read_messages | apply respects_throw | idtac ].
  unfold discord_add_user_mapping.
  destruct (args.alias t) as [alias|]; [|apply respects_throw].
  apply respects_bind; [|intros _; apply respects_ret].
  intros st r0 st' [= <- <-]. now apply Hadd.
Qed.

Lemma respects_CallToolHandler {casing : Casing} env w r st :
  (name r = "discord_add_user_mapping" ->
   forall alias v st, R st (assign_mapping (toLowerCase alias) v st)) ->
  R st (snd (CallToolHandler env w r st)).
Proof.
  intros Hadd.
  assert (H : respects R (try_body env w r)).
  { unfold try_body. apply respects_bind; [apply respects_wait|].
    intros _. now apply respects_dispatch. }
  unfold CallToolHandler.
  destruct (try_body env w r st) as [[t|e] st'] eqn:E; exact (H _ _ _ E).
Qed.

End Respects.

End Invariants.

Module StateProperties.

Import StringFacts UserMappings.

Lemma guild_identities_set_channels guild_id chs cache :
  guild_identities
    (List.map (fun g => if String.eqb (g_id g) guild_id
                        then {| g_id := g_id g; g_name := g_name g;
                                g_channels := chs |}
                        else g) cache) = guild_identities cache.
Proof.
  unfold guild_identities. rewrite List.map_map. apply List.map_ext.
  intros g. now destruct (String.eqb (g_id g) guild_id).
Qed.

Lemma evolves_refl st : evolves st st.
Proof.
  split; [trivial|]. split; [|reflexivity].
  exists []. now rewrite app_nil_r.
Qed.

Lemma evolves_trans st1 st2 st3 :
  evolves st1 st2 -> evolves st2 st3 -> evolves st1 st3.
Proof.
  intros (Hr1 & [l1 Hl1] & Hg1) (Hr2 & [l2 Hl2] & Hg2).
  split; [auto|]. split; [|congruence].
  exists (l1 ++ l2). now rewrite Hl2, Hl1, app_assoc.
Qed.

(** X1: an invocation of the handler, whatever the request and however it
    ends, never lowers the readiness flag, only appends to the log of
    remote operations, and leaves the cached guilds the same guilds in the
    same order (a refresh replaces channel lists only). *)
Theorem handler_evolves {casing : Casing} env w r st :
  evolves st (snd (CallToolHandler env w r st)).
Proof.
  apply Invariants.respects_CallToolHandler.
  - apply evolves_refl.
  - apply evolves_trans.
  - intros c st0. split; [trivial|]. split; [now exists [c] | reflexivity].
  - intros st0. split; [reflexivity|]. split; [|reflexivity].
    exists []. simpl. now rewrite app_nil_r.
  - intros guild_id chs st0. split; [trivial|]. split.
    + exists []. simpl. now rewrite app_nil_r.
    + apply guild_identities_set_channels.
  - intros _ alias v st0.
    destruct (assign_mapping_keeps (toLowerCase alias) v st0) as (E1 & E2 & E3).
    split; [now rewrite E1|]. split; [|now rewrite E3].
    exists []. now rewrite E2, app_nil_r.
Qed.

(** X2: only the add-user-alias tool writes the user mapping table: after
    an invocation of any other tool, or of an unknown one, the table is
    what it was. *)
Theorem only_add_user_mapping_writes_the_table {casing : Casing} env w r st :
  name r <> "discord_add_user_mapping" ->
  USER_MAPPINGS (snd (CallToolHandler env w r st)) = USER_MAPPINGS st.
Proof.
  intros Hname.
  apply (Invariants.respects_CallToolHandler same_mappings);
    unfold same_mappings; try reflexivity; try contradiction.
  intros st1 st2 st3 H1 H2. congruence.
Qed.

Lemma only_add_user_mapping_writes_the_table_witness :
  let a := {| args.channel := Some "general"; args.server := None;
              args.message := Some "hello"; args.code := None;
              args.language := None; args.title := None;
              args.file_path := None; args.image_path := None;
              args.user := None; args.alias := Some "x"; args.user_id := Some "1";
              args.limit := None |} in
  USER_MAPPINGS
    (snd (CallToolHandler env_john calm
            {| name := "discord_send_message"; arguments := Some a |}
            (set_ready (initial_state env_john [office_cached]))))
  = {["John" := "123"]}.
Proof.
  intros a.
  apply (only_add_user_mapping_writes_the_table env_john calm
           {| name := "discord_send_message"; arguments := Some a |}).
  discriminate.
Defined.

(** X3: no invocation of the handler introduces a key that is not
    lower-cased: if every key of the user mapping table is its own
    lower-casing before a call, the same holds after it, for every tool. *)
Theorem handler_keeps_lower_keys {casing : Casing} env w r st :
  lower_keys (USER_MAPPINGS st) ->
  lower_keys (USER_MAPPINGS (snd (CallToolHandler env w r st))).
Proof.
  apply (Invariants.respects_CallToolHandler keeps_lower_keys);
    unfold keeps_lower_keys; try (intros; assumption).
  - intros st1 st2 st3 H1 H2 H. auto.
  - intros _ alias v st0. apply assign_lower_keys.
Qed.

Lemma handler_keeps_lower_keys_witness :
  let a := {| args.channel := None; args.server := None;
              args.message := None; args.code := None;
              args.language := None; args.title := None;
              args.file_path := None; args.image_path := None;
              args.user := None; args.alias := Some "Boss";
              args.user_id := Some "42"; args.limit := None |} in
  let st' := snd (CallToolHandler env_two calm
                    {| name := "discord_add_user_mapping"; arguments := Some a |}
                    (ready_state [office])) in
  USER_MAPPINGS st' !! "boss" = Some "42" /\ lower_keys (USER_MAPPINGS st').
Proof.
  intros a st'. split; [reflexivity|].
  apply (handler_keeps_lower_keys env_two calm).
  intros k v H. simpl in H. rewrite lookup_empty in H. discriminate.
Defined.

End StateProperties.

(** ** Configuration and the readiness gate, further *)

Module Startup.

Import StringFacts Routing.

Lemma resolveGuild_default {casing : Casing} env cache (id : string) :
  get (GUILDS env) (DEFAULT_GUILD_ALIAS env) = Some id ->
  handle (resolveGuild env cache None) = guilds_get cache id.
Proof.
  intros Hget. unfold resolveGuild. change (truthy None) with (@None string).
  cbv beta iota zeta. rewrite (read_own _ _ _ Hget).
  change (as_id (VString id) ≫= guilds_get cache) with (guilds_get cache id).
  now destruct (guilds_get cache id).
Qed.

(** X4: which server a call without a server argument goes to.  When the
    registry maps [personal] to a non-empty ID the default alias is
    [personal], wherever the entry stands; otherwise it is the first alias
    of the registry (when that is not empty).  In both cases the call
    without an argument returns the cached guild with the mapped ID, and
    throws when the cache has none. *)
Theorem default_server_choice {casing : Casing} env cache :
  (forall id, get (GUILDS env) "personal" = Some id -> id <> EmptyString ->
     DEFAULT_GUILD_ALIAS env = "personal" /\
     handle (resolveGuild env cache None) = guilds_get cache id) /\
  (forall k id rest,
     truthy (get (GUILDS env) "personal") = None ->
     GUILDS env = (k, id) :: rest -> k <> EmptyString ->
     DEFAULT_GUILD_ALIAS env = k /\
     handle (resolveGuild env cache None) = guilds_get cache id).
Proof.
  split.
  - intros id Hget Hid.
    assert (Hd : DEFAULT_GUILD_ALIAS env = "personal").
    { unfold DEFAULT_GUILD_ALIAS.
      now destruct (read_truthy_own _ _ _ Hget Hid) as [_ ->]. }
    split; [exact Hd|]. apply resolveGuild_default. now rewrite Hd.
  - intros k id rest Hp Hg Hk.
    assert (Hd : DEFAULT_GUILD_ALIAS env = k).
    { unfold DEFAULT_GUILD_ALIAS.
      rewrite (read_not_truthy _ _ Hp eq_refl), Hg. simpl.
      unfold or_else. now rewrite (truthy_nonempty _ Hk). }
    split; [exact Hd|]. apply resolveGuild_default.
    rewrite Hd, Hg. apply get_head.
Qed.

Lemma default_server_choice_witness :
  DEFAULT_GUILD_ALIAS env_two = "personal" /\
  handle (resolveGuild env_two [office] None) = Some office /\
  DEFAULT_GUILD_ALIAS env_work = "Work".
Proof.
  destruct (default_server_choice env_two [office]) as [H1 _].
  destruct (default_server_choice env_work [office]) as [_ H2].
  destruct (H1 "111" eq_refl) as [Ha Hb]; [discriminate|].
  destruct (H2 "Work" "111" [] eq_refl eq_refl) as [Hc _]; [discriminate|].
  split; [exact Ha|]. split; [exact Hb | exact Hc].
Defined.

(** X5: the single-guild fallback.  A parsed alias map with entries is
    used as it is and the legacy ID is ignored; with an empty map and a
    non-empty legacy ID the registry is the one alias [default], which is
    then the default alias, and the guild is reached without an argument
    and under [default] in any letter case. *)
Theorem legacy_guild_is_alias_default {casing : Casing} env :
  (DISCORD_GUILDS env <> [] -> GUILDS env = DISCORD_GUILDS env) /\
  (forall id,
     DISCORD_GUILDS env = [] -> DISCORD_GUILD_ID env = Some id ->
     id <> EmptyString ->
     GUILDS env = [("default", id)] /\
     DEFAULT_GUILD_ALIAS env = "default" /\
     forall cache g (s : string),
       guilds_get cache id = Some g ->
       resolveGuild env cache None = Ok g /\
       (toLowerCase s = "default" -> resolveGuild env cache (Some s) = Ok g)).
Proof.
  split.
  - intros Hne. unfold GUILDS.
    destruct (truthy (DISCORD_GUILD_ID env)); [|reflexivity].
    destruct (DISCORD_GUILDS env) as [|e l]; [contradiction | reflexivity].
  - intros id Hg Hl Hid.
    assert (HG : GUILDS env = [("default", id)]).
    { unfold GUILDS. rewrite Hl, Hg, (truthy_nonempty _ Hid). reflexivity. }
    assert (HD : DEFAULT_GUILD_ALIAS env = "default").
    { unfold DEFAULT_GUILD_ALIAS. now rewrite HG. }
    split; [exact HG|]. split; [exact HD|].
    assert (Hget : get (GUILDS env) "default" = Some id)
      by (rewrite HG; apply get_head).
    intros cache g s Hc. split.
    + pose proof (resolveGuild_default env cache id) as Hh.
      rewrite HD in Hh. specialize (Hh Hget). rewrite Hc in Hh.
      destruct (resolveGuild env cache None); [|discriminate].
      simpl in Hh. congruence.
    + intros Hs.
      assert (Hne : s <> EmptyString).
      { intros ->. rewrite toLowerCase_empty in Hs. discriminate. }
      rewrite (ServerResolver.resolveGuild_alias env cache s id Hne)
        by (rewrite ?Hs; assumption).
      now rewrite Hc.
Qed.

End Startup.

(** ** The server resolver, further *)

Module ServerStrategies.

Import StringFacts.

Lemma guilds_get_In (cache : list Guild) (g : Guild) :
  In g cache -> exists g', guilds_get cache (g_id g) = Some g'.
Proof.
  intros Hin. unfold guilds_get.
  destruct (List.find (fun g0 => String.eqb (g_id g0) (g_id g)) cache) as [g'|] eqn:E;
    [eauto|].
  pose proof (List.find_none _ _ E g Hin) as H. simpl in H.
  now rewrite String.eqb_refl in H.
Qed.

Lemma contains_join (sep k : string) (l : list string) :
  In k l -> contains k (join sep l).
Proof.
  induction l as [|x l IH]; [intros []|].
  intros [-> | Hin].
  - destruct l as [|y l]; [apply contains_refl|].
    change (contains k (k +:+ sep +:+ join sep (y :: l))).
    apply (contains_here EmptyString).
  - destruct l as [|y l]; [destruct Hin|].
    change (contains k (x +:+ sep +:+ join sep (y :: l))).
    apply contains_after, contains_after. now apply IH.
Qed.

(** X7: a guild the connection has joined can be addressed by its raw ID
    without any alias: for a cached guild whose ID is all digits and is not
    itself an alias with a non-empty ID, the server resolver returns a
    cached guild with that ID. *)
Theorem resolveGuild_by_raw_id {casing : Casing} env cache (g : Guild) :
  In g cache ->
  test_digits (g_id g) = true ->
  truthy (get (GUILDS env) (g_id g)) = None ->
  exists g', resolveGuild env cache (Some (g_id g)) = Ok g' /\
             g_id g' = g_id g /\ In g' cache.
Proof.
  intros Hin Hd Halias.
  destruct (guilds_get_In cache g Hin) as [g' Hg'].
  exists g'. split; [|now apply ServerResolver.guilds_get_id in Hg'].
  unfold resolveGuild.
  assert (Hne : g_id g <> EmptyString) by (intros E; now rewrite E in Hd).
  rewrite (truthy_nonempty _ Hne). cbv beta iota zeta.
  rewrite (toLowerCase_digits _ (test_digits_all _ Hd)).
  rewrite (read_not_truthy _ _ Halias (digits_not_inherited _ Hd)), Hd.
  now rewrite Hg'.
Qed.

Lemma resolveGuild_by_raw_id_witness :
  resolveGuild env_two [office] (Some "111") = Ok office.
Proof.
  destruct (resolveGuild_by_raw_id env_two [office] office)
    as (g' & Hr & _ & [<- | []]);
    [left; reflexivity | reflexivity | reflexivity | exact Hr].
Defined.

(** X8: a guild the connection has joined can be addressed by its display
    name in any letter case: for an identifier that is not all digits,
    whose lower-casing equals the lower-cased name of a cached guild and
    reads nothing truthy in the registry (no alias with a non-empty ID, and
    no property that every object inherits, such as [constructor]), the
    server resolver returns a cached guild whose name is the identifier up
    to case. *)
Theorem resolveGuild_by_name {casing : Casing} env cache (g : Guild) (s : string) :
  In g cache ->
  toLowerCase s = toLowerCase (g_name g) ->
  s <> EmptyString ->
  test_digits s = false ->
  is_truthy (read (GUILDS env) (toLowerCase s)) = false ->
  exists g', resolveGuild env cache (Some s) = Ok g' /\
             toLowerCase (g_name g') = toLowerCase s /\ In g' cache.
Proof.
  intros Hin Hname Hne Hd Halias.
  unfold resolveGuild. rewrite (truthy_nonempty _ Hne). cbv beta iota zeta.
  rewrite Halias, Hd.
  destruct (List.find (fun g0 => String.eqb (toLowerCase (g_name g0)) (toLowerCase s))
              cache) as [g'|] eqn:E.
  - exists g'. apply List.find_some in E as [Hin' Heq].
    split; [reflexivity|]. split; [now apply String.eqb_eq | exact Hin'].
  - pose proof (List.find_none _ _ E g Hin) as H. simpl in H.
    rewrite Hname, String.eqb_refl in H. discriminate.
Qed.

Lemma resolveGuild_by_name_witness :
  resolveGuild env_two [office] (Some "OFFICE") = Ok office.
Proof.
  destruct (resolveGuild_by_name env_two [office] office "OFFICE")
    as (g' & Hr & _ & [<- | []]);
    [left; reflexivity | reflexivity | discriminate | reflexivity
    | reflexivity | exact Hr].
Defined.

(** X9: when the server resolver gives up on an identifier whose
    lower-casing reads nothing truthy in the registry (all three strategies
    missed), the message of its error holds the identifier as supplied and
    every alias of the registry. *)
Theorem resolveGuild_failure_lists_aliases {casing : Casing} env cache (s e : string) :
  s <> EmptyString ->
  is_truthy (read (GUILDS env) (toLowerCase s)) = false ->
  resolveGuild env cache (Some s) = Throw e ->
  contains s e /\ forall k, In k (keys (GUILDS env)) -> contains k e.
Proof.
  intros Hne Halias. unfold resolveGuild.
  rewrite (truthy_nonempty _ Hne). cbv beta iota zeta. rewrite Halias.
  destruct (if test_digits s then guilds_get cache s else None); [discriminate|].
  destruct (List.find _ cache); [discriminate|].
  intros [= <-]. split.
  - apply (contains_here ("Server " +:+ dq)).
  - intros k Hk.
    apply contains_after, contains_after, contains_after, contains_after, contains_after.
    now apply contains_join.
Qed.

Lemma resolveGuild_failure_lists_aliases_witness :
  exists e, resolveGuild env_two [office] (Some "nowhere") = Throw e /\
            contains "checkpoint" e /\ contains "personal" e.
Proof.
  eexists. split; [reflexivity|].
  destruct (resolveGuild_failure_lists_aliases env_two [office] "nowhere" _
              ltac:(discriminate) eq_refl eq_refl) as [_ H].
  split; apply H; simpl; auto.
Defined.

(** X31: an alias hit is final.  For a non-empty identifier whose
    lower-cased form is a key of the registry mapped to a non-empty ID, the
    server resolver returns the cached guild with that ID when the cache
    has one, and otherwise throws the alias error, whose message holds the
    identifier as supplied and the mapped ID; the raw-ID and name
    strategies play no part, whatever the cache holds. *)
Theorem alias_hit_is_final {casing : Casing} env cache (serverAlias guildId : string) :
  serverAlias <> EmptyString ->
  get (GUILDS env) (toLowerCase serverAlias) = Some guildId ->
  guildId <> EmptyString ->
  (forall guild, guilds_get cache guildId = Some guild ->
     resolveGuild env cache (Some serverAlias) = Ok guild /\ g_id guild = guildId) /\
  (guilds_get cache guildId = None ->
     exists message,
       resolveGuild env cache (Some serverAlias) = Throw message /\
       message = "Guild alias " +:+ dq +:+ serverAlias +:+ dq +:+
                 " (" +:+ guildId +:+ ") not found" /\
       contains serverAlias message /\ contains guildId message).
Proof.
  intros Hne Hget Hid.
  rewrite (ServerResolver.resolveGuild_alias env cache _ _ Hne Hget Hid). split.
  - intros guild Hg. rewrite Hg. split; [reflexivity|].
    now apply ServerResolver.guilds_get_id in Hg.
  - intros Hg. rewrite Hg. eexists. split; [reflexivity|].
    split; [reflexivity|]. split.
    + apply (contains_here ("Guild alias " +:+ dq)).
    + apply contains_after, contains_after, contains_after, contains_after.
      apply (contains_here " (").
Qed.

Lemma alias_hit_is_final_witness :
  resolveGuild env_two [office] (Some "PERSONAL") = Ok office /\
  exists message, resolveGuild env_two [office] (Some "CheckPoint") = Throw message /\
                  contains "CheckPoint" message /\ contains "222" message.
Proof.
  split.
  - apply (alias_hit_is_final env_two [office] "PERSONAL" "111");
      [discriminate | reflexivity | discriminate | reflexivity].
  - destruct (alias_hit_is_final env_two [office] "CheckPoint" "222")
      as [_ H]; [discriminate | reflexivity | discriminate |].
    destruct (H eq_refl) as (message & Hm & _ & Hc1 & Hc2).
    exists message. auto.
Defined.

(** The keys every object inherits are not aliases: an identifier that
    lower-cases to one is taken to the alias branch, which finds no guild
    under what it read. *)
Example inherited_keys_are_no_aliases :
  resolveGuild env_two [named_constructor] (Some "Constructor") =
    Throw ("Guild alias " +:+ dq +:+ "Constructor" +:+ dq +:+
           " (function Object() { [native code] }) not found") /\
  resolveGuild env_two [office] (Some "__proto__") =
    Throw ("Guild alias " +:+ dq +:+ "__proto__" +:+ dq +:+
           " ([object Object]) not found").
Proof. split; reflexivity. Qed.

End ServerStrategies.

(** ** The channel resolver, further *)

Module ChannelPhases.

Import StringFacts MonadFacts ChannelResolver.

(** X10: a channel that is in the guild's cache is resolved from the
    cache alone: when some cached channel matches the identifier, the
    channel resolver returns a matching cached channel, makes no remote
    call and leaves the state as it was. *)
Theorem resolveChannel_cache_hit {casing : Casing} w guild (ident : string) st :
  (exists c, In c (g_channels guild) /\ channel_matches ident c) ->
  exists c, resolveChannel w ident guild st = (Ok c, st) /\
            In c (g_channels guild) /\ channel_matches ident c.
Proof.
  intros Hhit. apply lookup_hits in Hhit as [c Hc].
  exists c. rewrite resolveChannel_phases, Hc.
  split; [reflexivity | now apply lookup_Some].
Qed.

Lemma resolveChannel_cache_hit_witness :
  resolveChannel calm "#General" office_cached (ready_state [office_cached])
  = (Ok general, ready_state [office_cached]).
Proof.
  destruct (resolveChannel_cache_hit calm office_cached "#General"
              (ready_state [office_cached])) as (c & Hr & [<- | []] & _).
  - exists general. split; [left; reflexivity|]. right. split; reflexivity.
  - exact Hr.
Defined.

(** X11: the channel resolver never returns a channel that does not match:
    a channel it returns has the identifier as its ID, or is text-capable
    and has the identifier (a leading [#] stripped) as its name up to case,
    and it comes from the guild's cache or from the list a successful
    refresh produced. *)
Theorem resolveChannel_sound {casing : Casing} w guild (ident : string) st c st' :
  resolveChannel w ident guild st = (Ok c, st') ->
  channel_matches ident c /\
  (c_isTextBased c = false -> c_id c = ident) /\
  (In c (g_channels guild) /\ st' = st \/
   exists refreshed, channels_fetch w guild = Ok refreshed /\ In c refreshed).
Proof.
  rewrite resolveChannel_phases. intros H.
  assert (Hgoal : channel_matches ident c /\
            (In c (g_channels guild) /\ st' = st \/
             exists refreshed, channels_fetch w guild = Ok refreshed /\
                               In c refreshed)).
  { destruct (lookup_channel (g_channels guild) ident) as [c0|] eqn:E1.
    - injection H as <- <-. apply lookup_Some in E1 as [Hin Hm]. auto.
    - destruct (channels_fetch w guild) as [refreshed|e] eqn:Hf.
      + rewrite (fetch_channels_Ok _ _ _ _ Hf) in H.
        destruct (lookup_channel refreshed ident) as [c0|] eqn:E2;
          [|discriminate].
        injection H as <- <-. apply lookup_Some in E2 as [Hin Hm].
        split; [exact Hm|]. right. eauto.
      + unfold fetch_channels, remote, mbind, M_bind in H.
        rewrite Hf in H. discriminate. }
  destruct Hgoal as [Hm Hfrom]. split; [exact Hm|]. split; [|exact Hfrom].
  intros Hvoice. destruct Hm as [Hid | [_ Htext]]; [exact Hid | congruence].
Qed.

Lemma resolveChannel_sound_witness :
  channel_matches "901" releases /\
  exists refreshed, channels_fetch calm office_cached = Ok refreshed /\
                    In releases refreshed.
Proof.
  destruct (resolveChannel_sound calm office_cached "901"
              (ready_state [office_cached]) releases
              (set_channels "111" [general; releases]
                 (log_call (ChannelsFetch "111") (ready_state [office_cached]))))
    as (Hm & _ & [[[H | []] _] | Hr]).
  - reflexivity.
  - discriminate.
  - split; [exact Hm | exact Hr].
Defined.

(** X12: the channel resolver fails only after the guild's cache has been
    missed and one refresh has been asked for.  When the refresh itself
    fails, its error is the one thrown; when it succeeds, no channel of the
    refreshed list matches and the message names the identifier and the
    guild. *)
Theorem resolveChannel_failure {casing : Casing} w guild (ident : string) st e st' :
  resolveChannel w ident guild st = (Throw e, st') ->
  (forall c, In c (g_channels guild) -> ~ channel_matches ident c) /\
  calls st' = calls st ++ [ChannelsFetch (g_id guild)] /\
  match channels_fetch w guild with
  | Ok refreshed =>
      (forall c, In c refreshed -> ~ channel_matches ident c) /\
      e = "Channel " +:+ dq +:+ ident +:+ dq +:+ " not found in " +:+ g_name guild
  | Throw e' => e = e'
  end.
Proof.
  rewrite resolveChannel_phases.
  destruct (lookup_channel (g_channels guild) ident) eqn:E1; [discriminate|].
  intros H. split; [now apply lookup_None|].
  destruct (channels_fetch w guild) as [refreshed|e'] eqn:Hf.
  - rewrite (fetch_channels_Ok _ _ _ _ Hf) in H.
    destruct (lookup_channel refreshed ident) eqn:E2; [discriminate|].
    injection H as <- <-. split; [reflexivity|].
    split; [now apply lookup_None | reflexivity].
  - unfold fetch_channels, remote, mbind, M_bind in H. rewrite Hf in H.
    injection H as <- <-. split; reflexivity.
Qed.

Lemma resolveChannel_failure_witness :
  exists e st',
    resolveChannel calm "announcements" office_cached (ready_state [office_cached])
      = (Throw e, st') /\
    calls st' = [ChannelsFetch "111"] /\
    e = "Channel " +:+ dq +:+ "announcements" +:+ dq +:+ " not found in Office".
Proof.
  exists ("Channel " +:+ dq +:+ "announcements" +:+ dq +:+ " not found in Office").
  exists (set_channels "111" [general; releases]
            (log_call (ChannelsFetch "111") (ready_state [office_cached]))).
  split; [reflexivity|].
  destruct (resolveChannel_failure calm office_cached "announcements"
              (ready_state [office_cached])
              ("Channel " +:+ dq +:+ "announcements" +:+ dq +:+ " not found in Office")
              (set_channels "111" [general; releases]
                 (log_call (ChannelsFetch "111") (ready_state [office_cached]))))
    as (_ & Hc & _ & He); [reflexivity|].
  split; [exact Hc | reflexivity].
Defined.

Lemma guilds_get_map (upd : Guild -> Guild) cache id g :
  (forall g0, g_id (upd g0) = g_id g0) ->
  guilds_get cache id = Some g ->
  guilds_get (List.map upd cache) id = Some (upd g).
Proof.
  intros Hid. unfold guilds_get.
  induction cache as [|g0 cache IH]; simpl; [discriminate|].
  rewrite Hid. destruct (String.eqb (g_id g0) id); [now intros [= ->] | exact IH].
Qed.

(** X13: a refresh is kept.  When the guild handed to the channel
    resolver is the one the state's cache holds and the call returns a
    channel, the guild as cached afterwards resolves the same identifier
    to the same channel from its cache, with no remote call. *)
Theorem resolveChannel_again_hits_cache {casing : Casing} w guild (ident : string) st c st' :
  guilds_get (guilds_cache st) (g_id guild) = Some guild ->
  resolveChannel w ident guild st = (Ok c, st') ->
  exists guild',
    guilds_get (guilds_cache st') (g_id guild) = Some guild' /\
    g_name guild' = g_name guild /\
    resolveChannel w ident guild' st' = (Ok c, st').
Proof.
  intros Hcached. rewrite resolveChannel_phases.
  destruct (lookup_channel (g_channels guild) ident) as [c0|] eqn:E1.
  - intros [= <- <-]. exists guild. split; [exact Hcached|].
    split; [reflexivity|]. now rewrite resolveChannel_phases, E1.
  - destruct (channels_fetch w guild) as [refreshed|e] eqn:Hf.
    + rewrite (fetch_channels_Ok _ _ _ _ Hf).
      destruct (lookup_channel refreshed ident) as [c0|] eqn:E2; [|discriminate].
      intros [= <- <-].
      exists {| g_id := g_id guild; g_name := g_name guild;
                g_channels := refreshed |}.
      split; [|split; [reflexivity|]].
      * simpl.
        rewrite (guilds_get_map _ _ _ guild); [|intros g0|exact Hcached].
        -- now rewrite String.eqb_refl.
        -- now destruct (String.eqb (g_id g0) (g_id guild)).
      * rewrite resolveChannel_phases. simpl. now rewrite E2.
    + unfold fetch_channels, remote, mbind, M_bind. rewrite Hf. discriminate.
Qed.

Lemma resolveChannel_again_hits_cache_witness :
  exists st' guild',
    resolveChannel calm "releases" office_cached (ready_state [office_cached])
      = (Ok releases, st') /\
    guilds_get (guilds_cache st') "111" = Some guild' /\
    resolveChannel calm "releases" guild' st' = (Ok releases, st').
Proof.
  exists (set_channels "111" [general; releases]
            (log_call (ChannelsFetch "111") (ready_state [office_cached]))).
  destruct (resolveChannel_again_hits_cache calm office_cached "releases"
              (ready_state [office_cached]) releases
              (set_channels "111" [general; releases]
                 (log_call (ChannelsFetch "111") (ready_state [office_cached]))))
    as (guild' & Hg & _ & Hr); [reflexivity | reflexivity |].
  exists guild'. split; [reflexivity|]. split; [exact Hg | exact Hr].
Defined.

End ChannelPhases.

(** ** Routing, further *)

Module DefaultChannel.

Import StringFacts MonadFacts Routing.

Lemma find_default_channel_Some cache d ch :
  find_default_channel cache d = Some ch ->
  exists before g after,
    cache = before ++ g :: after /\
    channels_get (g_channels g) d = Some ch /\
    forall g', In g' before -> channels_get (g_channels g') d = None.
Proof.
  induction cache as [|g0 cache IH]; simpl; [discriminate|].
  destruct (channels_get (g_channels g0) d) as [c|] eqn:E.
  - intros [= <-]. exists [], g0, cache. split; [reflexivity|].
    split; [exact E | intros g' []].
  - intros H. destruct (IH H) as (before & g & after & -> & Hg & Hb).
    exists (g0 :: before), g, after. split; [reflexivity|].
    split; [exact Hg|]. intros g' [<- | Hin]; [exact E | now apply Hb].
Qed.

Lemma find_default_channel_None cache d :
  (forall g c, In g cache -> In c (g_channels g) -> c_id c <> d) ->
  find_default_channel cache d = None.
Proof.
  induction cache as [|g0 cache IH]; intros H; simpl; [reflexivity|].
  destruct (channels_get (g_channels g0) d) as [c|] eqn:E.
  - apply List.find_some in E as [Hin Heq]. apply String.eqb_eq in Heq.
    exfalso. exact (H g0 c (or_introl eq_refl) Hin Heq).
  - apply IH. intros g c Hg. apply H. now right.
Qed.

Lemma routing_without_channel {casing : Casing} env w channelArg serverArg st guild :
  discordReady st = true ->
  truthy channelArg = None ->
  resolveGuild env (guilds_cache st) serverArg = Ok guild ->
  resolveChannelWithServer env w channelArg serverArg st =
  match DEFAULT_CHANNEL_ID env ≫= find_default_channel (guilds_cache st) with
  | Some ch => (Ok ch, st)
  | None => (Throw "No channel specified and no default channel set", st)
  end.
Proof.
  intros Hready Hc Hg. unfold resolveChannelWithServer.
  unfold waitForDiscord, mbind at 1 2 3, M_bind, get_state, lift_outcome.
  rewrite Hready, Hg, Hc.
  now destruct (DEFAULT_CHANNEL_ID env ≫= find_default_channel (guilds_cache st)).
Qed.

(** X14: the default channel is global.  With no channel argument, a
    server argument that resolves and a configured default channel that
    some cached guild holds, routing returns that channel from the first
    cached guild holding it, which need not be the server that was named;
    it makes no remote call and leaves the state as it was. *)
Theorem default_channel_is_global {casing : Casing} env w channelArg serverArg st guild d ch :
  discordReady st = true ->
  truthy channelArg = None ->
  resolveGuild env (guilds_cache st) serverArg = Ok guild ->
  DEFAULT_CHANNEL_ID env = Some d ->
  find_default_channel (guilds_cache st) d = Some ch ->
  resolveChannelWithServer env w channelArg serverArg st = (Ok ch, st) /\
  c_id ch = d /\
  exists before g after,
    guilds_cache st = before ++ g :: after /\ In ch (g_channels g) /\
    forall g' c, In g' before -> In c (g_channels g') -> c_id c <> d.
Proof.
  intros Hready Hc Hg Hd Hf.
  rewrite (routing_without_channel _ _ _ _ _ guild Hready Hc Hg), Hd.
  simpl. rewrite Hf. split; [reflexivity|].
  destruct (find_default_channel_Some _ _ _ Hf)
    as (before & g & after & Hcache & Hch & Hbefore).
  apply List.find_some in Hch as [Hin Heq]. apply String.eqb_eq in Heq.
  split; [exact Heq|]. exists before, g, after.
  split; [exact Hcache|]. split; [exact Hin|].
  intros g' c Hg' Hc' Hid. specialize (Hbefore g' Hg').
  pose proof (List.find_none _ _ Hbefore c Hc') as H. simpl in H.
  rewrite Hid, String.eqb_refl in H. discriminate.
Qed.

Lemma default_channel_is_global_witness :
  resolveGuild env_alerts [office_cached; lab] (Some "personal") = Ok office_cached /\
  resolveChannelWithServer env_alerts calm None (Some "personal")
    (ready_state [office_cached; lab])
  = (Ok alerts, ready_state [office_cached; lab]).
Proof.
  split; [reflexivity|].
  apply (default_channel_is_global env_alerts calm None (Some "personal")
           (ready_state [office_cached; lab]) office_cached "950" alerts);
    reflexivity.
Defined.

(** X15: with no channel argument and a server argument that resolves,
    routing throws the no-channel error, without a remote call, both when
    no default channel is configured and when the configured one is in no
    cached guild. *)
Theorem no_channel_no_default {casing : Casing} env w channelArg serverArg st guild :
  discordReady st = true ->
  truthy channelArg = None ->
  resolveGuild env (guilds_cache st) serverArg = Ok guild ->
  (forall d g c, DEFAULT_CHANNEL_ID env = Some d ->
     In g (guilds_cache st) -> In c (g_channels g) -> c_id c <> d) ->
  resolveChannelWithServer env w channelArg serverArg st =
  (Throw "No channel specified and no default channel set", st).
Proof.
  intros Hready Hc Hg Hnone.
  rewrite (routing_without_channel _ _ _ _ _ guild Hready Hc Hg).
  destruct (DEFAULT_CHANNEL_ID env) as [d|]; [|reflexivity].
  simpl. rewrite find_default_channel_None; [reflexivity|].
  intros g c. now apply Hnone.
Qed.

Lemma no_channel_no_default_witness :
  resolveChannelWithServer env_alerts calm (Some "") None
    (ready_state [office_cached])
  = (Throw "No channel specified and no default channel set",
     ready_state [office_cached]).
Proof.
  apply (no_channel_no_default env_alerts calm (Some "") None
           (ready_state [office_cached]) office_cached);
    [reflexivity | reflexivity | reflexivity |].
  intros d g c [= <-] [<- | []] [<- | []]. discriminate.
Defined.

End DefaultChannel.

(** ** The user resolver, further *)

Module UserStrategies.

Import StringFacts MonadFacts Routing UserMappings.

Lemma read_mapping_own (st : State) (k v : string) :
  USER_MAPPINGS st !! k = Some v -> read_mapping st k = VString v.
Proof. unfold read_mapping. now intros ->. Qed.

Lemma read_mapping_not_truthy (st : State) (k : string) :
  truthy (USER_MAPPINGS st !! k) = None -> is_inherited k = false ->
  is_truthy (read_mapping st k) = false.
Proof.
  unfold read_mapping, inherited. intros Hget Hinh. rewrite Hinh.
  destruct (USER_MAPPINGS st !! k) as [[|c r]|]; try discriminate;
    [reflexivity | now destruct (List.existsb _ _)].
Qed.

Lemma resolveUser_ready {casing : Casing} env w nameOrId st :
  discordReady st = true ->
  resolveUser env w (Some nameOrId) st =
  let mappedId := read_mapping st (toLowerCase nameOrId) in
  if is_truthy mappedId then
    let message :=
      "Mapped user " +:+ dq +:+ nameOrId +:+ dq +:+
      " (ID: " +:+ show_value mappedId +:+ ") not found" in
    match mappedId with
    | VString id => fetch_user_or w id message st
    | _ => fetch_no_user_or mappedId message st
    end
  else if test_digits nameOrId then
    fetch_user_or w nameOrId ("User with ID " +:+ nameOrId +:+ " not found") st
  else
    match search_guilds w nameOrId (GUILDS env) st with
    | (Ok (Some u), st') => (Ok u, st')
    | (Ok None, st') =>
        (Throw ("User " +:+ dq +:+ nameOrId +:+ dq +:+ " not found"), st')
    | (Throw e, st') => (Throw e, st')
    end.
Proof.
  intros Hready. unfold resolveUser.
  unfold waitForDiscord, mbind at 1 2, M_bind at 1 2, get_state.
  rewrite Hready. cbv zeta.
  destruct (is_truthy (read_mapping st (toLowerCase nameOrId)));
    [now destruct (read_mapping st (toLowerCase nameOrId))|].
  destruct (test_digits nameOrId); [reflexivity|].
  unfold mbind, M_bind.
  now destruct (search_guilds w nameOrId (GUILDS env) st) as [[[u|]|e] st'].
Qed.

(** X16: an alias added with the add-user-alias tool is found by the user
    resolver in any letter case.  After the tool has stored a non-empty ID
    under an alias whose lower-casing is not [__proto__], resolving any
    spelling of the alias makes one remote call, the fetch of the mapped
    ID, and returns its user; when that fetch fails the resolver throws the
    mapped-user error, which holds the identifier and the ID, and tries no
    other strategy. *)
Theorem added_alias_resolves {casing : Casing} env w a (alias id query : string) st r st1 :
  args.alias a = Some alias -> args.user_id a = Some id ->
  toLowerCase alias <> "__proto__" ->
  id <> EmptyString ->
  discordReady st = true ->
  discord_add_user_mapping a st = (r, st1) ->
  toLowerCase query = toLowerCase alias ->
  resolveUser env w (Some query) st1 =
  (match users_fetch w id with
   | Ok u => Ok u
   | Throw _ =>
       Throw ("Mapped user " +:+ dq +:+ query +:+ dq +:+
              " (ID: " +:+ id +:+ ") not found")
   end, log_call (UsersFetch id) st1).
Proof.
  intros Ha Hv Hproto Hid Hready Hadd Hq.
  unfold discord_add_user_mapping in Hadd. rewrite Ha, Hv in Hadd.
  unfold modify, mbind, M_bind, mret, M_ret in Hadd. injection Hadd as _ <-.
  destruct (assign_mapping_stores (toLowerCase alias) id st Hproto) as [Hstored _].
  destruct (assign_mapping_keeps (toLowerCase alias) (Some id) st) as [Hr _].
  rewrite resolveUser_ready by (now rewrite Hr).
  cbv zeta. rewrite Hq, (read_mapping_own _ _ _ Hstored).
  destruct id as [|c id]; [contradiction|]. simpl is_truthy. cbv iota.
  unfold fetch_user_or, show_value. now destruct (users_fetch w (String c id)).
Qed.

Lemma added_alias_resolves_witness :
  let a := {| args.channel := None; args.server := None;
              args.message := None; args.code := None;
              args.language := None; args.title := None;
              args.file_path := None; args.image_path := None;
              args.user := None; args.alias := Some "Boss";
              args.user_id := Some "123"; args.limit := None |} in
  let st1 := snd (discord_add_user_mapping a (ready_state [office])) in
  fst (resolveUser env_two knows_john (Some "BOSS") st1) = Ok john /\
  fst (resolveUser env_two calm (Some "boss") st1) =
    Throw ("Mapped user " +:+ dq +:+ "boss" +:+ dq +:+ " (ID: 123) not found").
Proof.
  intros a st1. split.
  - rewrite (added_alias_resolves env_two knows_john a "Boss" "123" "BOSS"
               (ready_state [office]) (fst (discord_add_user_mapping a (ready_state [office]))) st1);
      [reflexivity | reflexivity | reflexivity | discriminate | discriminate
      | reflexivity | reflexivity | reflexivity].
  - rewrite (added_alias_resolves env_two calm a "Boss" "123" "boss"
               (ready_state [office]) (fst (discord_add_user_mapping a (ready_state [office]))) st1);
      [reflexivity | reflexivity | reflexivity | discriminate | discriminate
      | reflexivity | reflexivity | reflexivity].
Defined.

(** The alias [__proto__] is not stored: the assignment reaches the
    setter of the prototype, the table is what it was, and the user
    resolver then reads the prototype under the key and asks the platform
    for no ID. *)
Example proto_alias_is_not_stored :
  let a := {| args.channel := None; args.server := None;
              args.message := None; args.code := None;
              args.language := None; args.title := None;
              args.file_path := None; args.image_path := None;
              args.user := None; args.alias := Some "__proto__";
              args.user_id := Some "123"; args.limit := None |} in
  let st := ready_state [office] in
  discord_add_user_mapping a st =
    (Ok (Text ("Mapped " +:+ dq +:+ "__proto__" +:+ dq +:+ " -> 123 (session only)")),
     st) /\
  resolveUser env_two knows_john (Some "__proto__") st =
    (Throw ("Mapped user " +:+ dq +:+ "__proto__" +:+ dq +:+
            " (ID: [object Object]) not found"),
     log_call (UsersFetchNoId (VInherited "__proto__")) st).
Proof. split; reflexivity. Qed.

(** X17: an identifier that is all digits and is not a mapped alias is
    taken as a user ID: the resolver makes exactly one remote call, the
    fetch of that ID, returns its user, and on a failed fetch throws the
    user-ID error; it never searches the members of a guild. *)
Theorem resolveUser_by_raw_id {casing : Casing} env w (nameOrId : string) st :
  discordReady st = true ->
  truthy (USER_MAPPINGS st !! toLowerCase nameOrId) = None ->
  test_digits nameOrId = true ->
  resolveUser env w (Some nameOrId) st =
  (match users_fetch w nameOrId with
   | Ok u => Ok u
   | Throw _ => Throw ("User with ID " +:+ nameOrId +:+ " not found")
   end, log_call (UsersFetch nameOrId) st).
Proof.
  intros Hready Hmap Hd. rewrite resolveUser_ready by exact Hready.
  cbv zeta. rewrite read_mapping_not_truthy; [|exact Hmap|].
  - rewrite Hd. unfold fetch_user_or. now destruct (users_fetch w nameOrId).
  - rewrite (toLowerCase_digits _ (test_digits_all _ Hd)).
    now apply digits_not_inherited.
Qed.

Lemma resolveUser_by_raw_id_witness :
  resolveUser env_two knows_john (Some "123") (ready_state [office])
  = (Ok john, log_call (UsersFetch "123") (ready_state [office])) /\
  fst (resolveUser env_two knows_john (Some "124") (ready_state [office]))
  = Throw "User with ID 124 not found".
Proof.
  split.
  - rewrite (resolveUser_by_raw_id env_two knows_john "123" (ready_state [office]));
      reflexivity.
  - rewrite (resolveUser_by_raw_id env_two knows_john "124" (ready_state [office]));
      reflexivity.
Defined.

(** The member search finds only members that match, in guilds that are
    registered and cached, and asks only for the name, five at a time. *)
Lemma search_guilds_found {casing : Casing} w nameOrId entries st u st' :
  search_guilds w nameOrId entries st = (Ok (Some u), st') ->
  (exists k guild members m,
     In (k, g_id guild) entries /\ In guild (guilds_cache st) /\
     members_fetch w guild (Some nameOrId) 5 = Ok members /\
     In m members /\ m_user m = u /\ member_matches nameOrId m = true) /\
  exists l, calls st' = calls st ++ l /\
            Forall (fun c => exists guild_id,
                      c = MembersFetch guild_id (Some nameOrId) 5) l.
Proof.
  revert st. induction entries as [|[k guildId] rest IH]; intros st; simpl.
  - discriminate.
  - unfold mbind at 1, M_bind at 1, get_state.
    destruct (guilds_get (guilds_cache st) guildId) as [guild|] eqn:Hg.
    + unfold mbind, M_bind, remote.
      destruct (members_fetch w guild (Some nameOrId) 5) as [members|e] eqn:Hf;
        [|discriminate].
      apply ServerResolver.guilds_get_id in Hg as [Hid Hin].
      destruct (List.find (member_matches nameOrId) members) as [m|] eqn:Hm.
      * intros [= <- <-]. apply List.find_some in Hm as [Hmin Hmm]. split.
        -- exists k, guild, members, m. rewrite Hid. simpl. auto 10.
        -- exists [MembersFetch (g_id guild) (Some nameOrId) 5].
           split; [reflexivity|]. repeat constructor. eauto.
      * intros H. apply IH in H as [(k' & g' & ms & m & H1 & H2 & H3) [l [Hl Hall]]].
        split.
        -- exists k', g', ms, m. simpl in H2. auto 10.
        -- exists (MembersFetch (g_id guild) (Some nameOrId) 5 :: l). split.
           ++ rewrite Hl. simpl. now rewrite <- app_assoc.
           ++ constructor; eauto.
    + intros H. apply IH in H as [(k' & g' & ms & m & H1 & H2 & H3) Hlog].
      split; [|exact Hlog]. exists k', g', ms, m. auto 10.
Qed.

(** A resolution that returns a user for an identifier that is neither a
    mapped alias nor all digits comes from the member search. *)
Lemma resolveUser_unmapped {casing : Casing} env w (nameOrId : string) st u st' :
  discordReady st = true ->
  truthy (USER_MAPPINGS st !! toLowerCase nameOrId) = None ->
  test_digits nameOrId = false ->
  resolveUser env w (Some nameOrId) st = (Ok u, st') ->
  search_guilds w nameOrId (GUILDS env) st = (Ok (Some u), st').
Proof.
  intros Hready Hmap Hd. rewrite resolveUser_ready by exact Hready. cbv zeta.
  assert (Hsearch :
    (if test_digits nameOrId
     then fetch_user_or w nameOrId ("User with ID " +:+ nameOrId +:+ " not found") st
     else
       match search_guilds w nameOrId (GUILDS env) st with
       | (Ok (Some u0), st0) => (Ok u0, st0)
       | (Ok None, st0) =>
           (Throw ("User " +:+ dq +:+ nameOrId +:+ dq +:+ " not found"), st0)
       | (Throw e, st0) => (Throw e, st0)
       end) = (Ok u, st') ->
    search_guilds w nameOrId (GUILDS env) st = (Ok (Some u), st')).
  { rewrite Hd.
    destruct (search_guilds w nameOrId (GUILDS env) st) as [[[u0|]|e] st0];
      [now intros [= <- <-] | discriminate | discriminate]. }
  unfold read_mapping, inherited.
  destruct (USER_MAPPINGS st !! toLowerCase nameOrId) as [[|c0 r0]|];
    [exact Hsearch | discriminate Hmap |].
  destruct (List.existsb _ (USER_MAPPINGS_undefined st)); [exact Hsearch|].
  destruct (is_inherited (toLowerCase nameOrId)); [discriminate | exact Hsearch].
Qed.

(** X18: a user found by name is a member that matches.  When an
    identifier that is neither a mapped alias nor all digits resolves, the
    user belongs to a member returned by the search of a guild that is
    both registered and cached, and the member's username, display name or
    global name is the identifier up to case; every remote call the
    resolver made is a member search for that identifier with limit 5. *)
Theorem resolveUser_by_name_sound {casing : Casing} env w (nameOrId : string) st u st' :
  discordReady st = true ->
  truthy (USER_MAPPINGS st !! toLowerCase nameOrId) = None ->
  test_digits nameOrId = false ->
  resolveUser env w (Some nameOrId) st = (Ok u, st') ->
  (exists k guild members m,
     In (k, g_id guild) (GUILDS env) /\ In guild (guilds_cache st) /\
     members_fetch w guild (Some nameOrId) 5 = Ok members /\
     In m members /\ m_user m = u /\
     (toLowerCase (u_username u) = toLowerCase nameOrId \/
      toLowerCase (m_displayName m) = toLowerCase nameOrId \/
      exists globalName, u_globalName u = Some globalName /\
                         toLowerCase globalName = toLowerCase nameOrId)) /\
  exists l, calls st' = calls st ++ l /\
            Forall (fun c => exists guild_id,
                      c = MembersFetch guild_id (Some nameOrId) 5) l.
Proof.
  intros Hready Hmap Hd Hres.
  pose proof (resolveUser_unmapped env w nameOrId st u st' Hready Hmap Hd Hres) as E.
  apply search_guilds_found in E
    as [(k & guild & members & m & H1 & H2 & H3 & H4 & H5 & H6) Hlog].
  split; [|exact Hlog].
  exists k, guild, members, m. repeat (split; [assumption|]).
  subst u. unfold member_matches in H6.
  apply orb_true_iff in H6 as [H6 | H6];
    [apply orb_true_iff in H6 as [H6 | H6]|].
  - left. now apply String.eqb_eq.
  - right. left. now apply String.eqb_eq.
  - right. right. destruct (u_globalName (m_user m)) as [gn|]; [|discriminate].
    exists gn. split; [reflexivity | now apply String.eqb_eq].
Qed.

Lemma resolveUser_by_name_sound_witness :
  resolveUser env_two finds_ann (Some "annie") (ready_state [office])
  = (Ok (m_user ann),
     log_call (MembersFetch "111" (Some "annie") 5) (ready_state [office])) /\
  exists m, m_user m = m_user ann /\
            toLowerCase (m_displayName m) = toLowerCase "annie".
Proof.
  split; [reflexivity|].
  destruct (resolveUser_by_name_sound env_two finds_ann "annie"
              (ready_state [office]) (m_user ann)
              (log_call (MembersFetch "111" (Some "annie") 5) (ready_state [office])))
    as [(k & guild & members & m & _ & _ & Hf & Hin & Hu & _) _];
    [reflexivity | reflexivity | reflexivity | reflexivity |].
  injection Hf as <-. destruct Hin as [<- | []].
  exists ann. split; reflexivity.
Defined.

End UserStrategies.

(** ** Sending text and code, further *)

Module Sending.

Import StringFacts MonadFacts Routing Chunks Dispatcher.

Lemma length_append (a b : string) :
  String.length (a +:+ b) = (String.length a + String.length b)%nat.
Proof.
  induction a as [|x a IH]; [reflexivity|].
  rewrite append_cons. simpl. now rewrite IH.
Qed.

(** X19: the length the send-code tool compares with the limit.  For a
    given code the rendering has the length of the code, plus that of the
    language tag, plus 8 for the fences and line breaks, plus, with a
    non-empty title, the length of the title and 5; so code alone is sent
    as text up to 1992 units. *)
Theorem fullMessage_length a (code : string) :
  args.code a = Some code ->
  String.length (fullMessage a) =
  (String.length code + String.length (or_else (args.language a) EmptyString) + 8 +
   match truthy (args.title a) with
   | Some title => String.length title + 5
   | None => 0
   end)%nat.
Proof.
  intros Hc. unfold fullMessage, formatCodeBlock, bold. rewrite Hc.
  destruct (truthy (args.title a)) as [title|];
    repeat rewrite length_append; simpl; lia.
Qed.

Lemma fullMessage_length_witness :
  let a n := {| args.channel := None; args.server := None;
                args.message := None; args.code := Some (units n "x"%char);
                args.language := None; args.title := None;
                args.file_path := None; args.image_path := None;
                args.user := None; args.alias := None; args.user_id := None;
                args.limit := None |} in
  String.length (fullMessage (a 1992%nat)) = 2000%nat /\
  String.length (fullMessage (a 1993%nat)) = 2001%nat.
Proof.
  intros a. split.
  - rewrite (fullMessage_length (a 1992%nat) (units 1992 "x"%char) eq_refl).
    vm_compute. reflexivity.
  - rewrite (fullMessage_length (a 1993%nat) (units 1993 "x"%char) eq_refl).
    vm_compute. reflexivity.
Defined.

(** X20: a rendering of at most 2000 units is sent as it is.  The
    send-code tool then makes exactly one [send], a plain text that is the
    whole rendering, with no attachment, or it makes no [send] at all and
    replies with an error. *)
Theorem short_code_is_one_text {casing : Casing} env w a st reply st' :
  (String.length (fullMessage a) <= 2000)%nat ->
  CallToolHandler env w
    {| name := "discord_send_code"; arguments := Some a |} st = (reply, st') ->
  (exists channel,
     sends (calls st') =
       sends (calls st) ++ [Send (ToChannel channel) (PText (fullMessage a))]) \/
  (isError reply = true /\ sends (calls st') = sends (calls st)).
Proof.
  intros Hshort H. unfold CallToolHandler, try_body in H.
  destruct (waitForDiscord w 15000 st) as [[[]|e] st1] eqn:Hw.
  - rewrite (bind_step _ _ _ _ _ Hw) in H.
    apply waitForDiscord_Ok in Hw as (_ & Hc1 & _ & _).
    change (dispatch env w _ st1) with (discord_send_code env w a st1) in H.
    unfold discord_send_code in H.
    destruct (resolveChannelWithServer env w (args.channel a) (args.server a) st1)
      as [[channel|e] st2] eqn:Hr;
      pose proof (resolveChannelWithServer_sends _ _ _ _ _ _ _ Hr) as Hs2.
    + rewrite (bind_step _ _ _ _ _ Hr) in H.
      assert (Hlt : Nat.ltb 2000 (String.length (fullMessage a)) = false)
        by (apply Nat.ltb_ge; exact Hshort).
      rewrite Hlt in H. left. exists channel.
      destruct (send w (ToChannel channel) (PText (fullMessage a)) st2)
        as [[[]|e] st3] eqn:Hs;
        pose proof (send_logged _ _ _ _ _ _ Hs) as Hl.
      * rewrite (bind_step _ _ _ _ _ Hs) in H. injection H as _ <-.
        now rewrite Hl, sends_app, Hs2, Hc1.
      * rewrite (bind_fail _ _ _ _ _ Hs) in H. injection H as _ <-.
        now rewrite Hl, sends_app, Hs2, Hc1.
    + right. rewrite (bind_fail _ _ _ _ _ Hr) in H.
      injection H as <- <-. split; [reflexivity | congruence].
  - right. rewrite (bind_fail _ _ _ _ _ Hw) in H.
    apply waitForDiscord_Throw in Hw as [_ ->].
    injection H as <- <-. split; reflexivity.
Qed.

Lemma short_code_is_one_text_witness :
  let a := {| args.channel := Some "general"; args.server := None;
              args.message := None; args.code := Some "x = 1";
              args.language := Some "py"; args.title := None;
              args.file_path := None; args.image_path := None;
              args.user := None; args.alias := None; args.user_id := None;
              args.limit := None |} in
  let run := CallToolHandler env_two calm
               {| name := "discord_send_code"; arguments := Some a |}
               (ready_state [office_cached]) in
  exists channel,
    sends (calls (snd run)) =
      [Send (ToChannel channel)
            (PText (backticks +:+ "py" +:+ nl +:+ "x = 1" +:+ nl +:+ backticks))].
Proof.
  intros a run.
  destruct (short_code_is_one_text env_two calm a
              (ready_state [office_cached]) (fst run) (snd run))
    as [[channel Hs] | [Herr _]].
  - apply Nat.leb_le. vm_compute. reflexivity.
  - apply surjective_pairing.
  - exists channel. exact Hs.
  - vm_compute in Herr. discriminate.
Defined.

Section Size.

Variable n : nat.
Hypothesis n_pos : (0 < n)%nat.

Lemma match_chunks_count (fuel : nat) (msg : string) :
  (String.length msg <= fuel)%nat ->
  length (match_chunks n fuel msg) = ((String.length msg + n - 1) / n)%nat.
Proof.
  revert msg. induction fuel as [|fuel IH]; intros msg Hlen.
  - destruct msg; [|simpl in Hlen; lia].
    simpl. symmetry. apply Nat.div_small. lia.
  - destruct msg as [|c r].
    + simpl. symmetry. apply Nat.div_small. lia.
    + change (match_chunks n (S fuel) (String c r))
        with (take n (String c r) :: match_chunks n fuel (drop n (String c r))).
      pose proof (length_drop n (String c r)) as Hd.
      simpl length at 1. rewrite IH by (rewrite Hd; simpl in *; lia).
      rewrite Hd. set (len := String.length (String c r)) in *.
      assert (Hlen1 : (1 <= len)%nat) by (unfold len; simpl; lia).
      replace (len + n - 1)%nat with ((len - 1) + 1 * n)%nat by lia.
      rewrite Nat.div_add by lia.
      destruct (Nat.le_gt_cases n len) as [Hge|Hlt].
      * replace (len - n + n - 1)%nat with (len - 1)%nat by lia. lia.
      * replace (len - n + n - 1)%nat with (n - 1)%nat by lia.
        rewrite (Nat.div_small (n - 1)), (Nat.div_small (len - 1)) by lia. lia.
Qed.

Lemma match_chunks_full (fuel : nat) (msg : string) (full : list string)
    (last : string) :
  match_chunks n fuel msg = full ++ [last] ->
  Forall (fun chunk => String.length chunk = n) full.
Proof.
  revert msg full. induction fuel as [|fuel IH]; intros msg full.
  - simpl. destruct full; discriminate.
  - destruct msg as [|c r]; [destruct full; discriminate|].
    change (match_chunks n (S fuel) (String c r))
      with (take n (String c r) :: match_chunks n fuel (drop n (String c r))).
    destruct full as [|x full]; [constructor|].
    simpl. intros [= <- Hrest]. constructor; [|exact (IH _ _ Hrest)].
    rewrite length_take.
    destruct (drop n (String c r)) as [|c' r'] eqn:Hd.
    + destruct fuel; simpl in Hrest; destruct full; discriminate.
    + pose proof (length_drop n (String c r)) as Hl. rewrite Hd in Hl.
      simpl in Hl. simpl. lia.
Qed.

End Size.

(** X21: the sizes of the chunks of a message: every chunk but the last is
    exactly 2000 units long, no chunk is empty, and their number is the
    length of the message divided by 2000, rounded up. *)
Theorem chunks_of_sizes (msg : string) :
  length (chunks_of msg) = ((String.length msg + 1999) / 2000)%nat /\
  Forall (fun chunk => chunk <> EmptyString) (chunks_of msg) /\
  forall full last, chunks_of msg = full ++ [last] ->
    Forall (fun chunk => String.length chunk = 2000%nat) full.
Proof.
  unfold chunks_of. split; [|split].
  - rewrite match_chunks_count by lia. f_equal. lia.
  - apply match_chunks_nonempty. lia.
  - intros full last. apply match_chunks_full. lia.
Qed.

Lemma send_each_attempts w to chunks st r st' :
  send_each w to chunks st = (r, st') ->
  exists attempted rest,
    chunks = attempted ++ rest /\
    calls st' = calls st ++ List.map (fun chunk => Send to (PText chunk)) attempted /\
    (forall u, r = Ok u -> rest = []).
Proof.
  revert st. induction chunks as [|chunk rest IH]; intros st; simpl.
  - intros [= <- <-]. exists [], []. split; [reflexivity|].
    split; [simpl; now rewrite app_nil_r | reflexivity].
  - destruct (send w to (PText chunk) st) as [[[]|e] st1] eqn:Hs;
      pose proof (send_logged _ _ _ _ _ _ Hs) as Hl.
    + rewrite (bind_step _ _ _ _ _ Hs). intros H.
      destruct (IH _ H) as (attempted & rest' & -> & Hc & Hok).
      exists (chunk :: attempted), rest'. split; [reflexivity|].
      split; [|exact Hok]. rewrite Hc, Hl. simpl. now rewrite <- app_assoc.
    + rewrite (bind_fail _ _ _ _ _ Hs). intros [= <- <-].
      exists [chunk], rest. split; [reflexivity|].
      split; [exact Hl | discriminate].
Qed.

(** X22: the send-message tool stops at the first [send] that fails and
    repeats nothing.  However a call ends, the [send] calls it made carry,
    in order, a prefix of what the message asks for (the message itself, or
    its chunks when it is longer than 2000 units), all to one channel; a
    reply that is not an error means the prefix is everything. *)
Theorem send_message_stops_at_failure {casing : Casing} env w a (msg : string) st reply st' :
  args.message a = Some msg ->
  CallToolHandler env w
    {| name := "discord_send_message"; arguments := Some a |} st = (reply, st') ->
  exists channel attempted rest,
    expected_texts msg = attempted ++ rest /\
    sends (calls st') =
      sends (calls st) ++
      List.map (fun chunk => Send (ToChannel channel) (PText chunk)) attempted /\
    (isError reply = false -> rest = []).
Proof.
  intros Hmsg H. unfold CallToolHandler, try_body in H.
  pose (nowhere := {| c_id := EmptyString; c_name := EmptyString;
                      c_isTextBased := false; c_isThread := false; c_type := 0;
                      c_parent_name := None; c_guild_name := EmptyString |}).
  destruct (waitForDiscord w 15000 st) as [[[]|e] st1] eqn:Hw.
  - rewrite (bind_step _ _ _ _ _ Hw) in H.
    apply waitForDiscord_Ok in Hw as (_ & Hc1 & _ & _).
    change (dispatch env w _ st1) with (discord_send_message env w a st1) in H.
    unfold discord_send_message in H.
    destruct (resolveChannelWithServer env w (args.channel a) (args.server a) st1)
      as [[channel|e] st2] eqn:Hr;
      pose proof (resolveChannelWithServer_sends _ _ _ _ _ _ _ Hr) as Hs2.
    + rewrite (bind_step _ _ _ _ _ Hr), Hmsg in H.
      exists channel. unfold expected_texts.
      destruct (Nat.leb (String.length msg) 2000).
      * destruct (send w (ToChannel channel) (PText msg) st2)
          as [[[]|e] st3] eqn:Hs;
          pose proof (send_logged _ _ _ _ _ _ Hs) as Hl.
        -- rewrite (bind_step _ _ _ _ _ Hs) in H. injection H as _ <-.
           exists [msg], []. rewrite Hl, sends_app, Hs2, Hc1. auto.
        -- rewrite (bind_fail _ _ _ _ _ Hs) in H. injection H as _ <-.
           exists [msg], []. rewrite Hl, sends_app, Hs2, Hc1. auto.
      * destruct (send_each w (ToChannel channel) (chunks_of msg) st2)
          as [[[]|e] st3] eqn:Hs;
          destruct (send_each_attempts _ _ _ _ _ _ Hs)
            as (attempted & rest & Hch & Hl & Hok).
        -- rewrite (bind_step _ _ _ _ _ Hs) in H. injection H as _ <-.
           exists attempted, rest. split; [exact Hch|]. split.
           ++ now rewrite Hl, sends_app, sends_of_sends, Hs2, Hc1.
           ++ intros _. now apply (Hok tt).
        -- rewrite (bind_fail _ _ _ _ _ Hs) in H. injection H as <- <-.
           exists attempted, rest. split; [exact Hch|]. split.
           ++ now rewrite Hl, sends_app, sends_of_sends, Hs2, Hc1.
           ++ discriminate.
    + rewrite (bind_fail _ _ _ _ _ Hr) in H. injection H as <- <-.
      exists nowhere, [], (expected_texts msg). split; [reflexivity|].
      split; [simpl; now rewrite app_nil_r, Hs2, Hc1 | discriminate].
  - rewrite (bind_fail _ _ _ _ _ Hw) in H.
    apply waitForDiscord_Throw in Hw as [_ ->]. injection H as <- <-.
    exists nowhere, [], (expected_texts msg). split; [reflexivity|].
    split; [simpl; now rewrite app_nil_r | discriminate].
Qed.

Lemma send_message_stops_at_failure_witness :
  let a := {| args.channel := Some "general"; args.server := None;
              args.message := Some (units 4001 "a"%char); args.code := None;
              args.language := None; args.title := None;
              args.file_path := None; args.image_path := None;
              args.user := None; args.alias := None; args.user_id := None;
              args.limit := None |} in
  let run := CallToolHandler env_two second_send_fails
               {| name := "discord_send_message"; arguments := Some a |}
               (ready_state [office_cached]) in
  length (expected_texts (units 4001 "a"%char)) = 3%nat /\
  fst run = error_reply "Missing Permissions" /\
  length (sends (calls (snd run))) = 2%nat /\
  exists channel attempted rest,
    expected_texts (units 4001 "a"%char) = attempted ++ rest /\
    sends (calls (snd run)) =
      List.map (fun chunk => Send (ToChannel channel) (PText chunk)) attempted.
Proof.
  intros a run. split; [vm_compute; reflexivity|].
  split; [vm_compute; reflexivity|]. split; [vm_compute; reflexivity|].
  destruct (send_message_stops_at_failure env_two second_send_fails a
              (units 4001 "a"%char) (ready_state [office_cached])
              (fst run) (snd run) eq_refl)
    as (channel & attempted & rest & He & Hs & _);
    [apply surjective_pairing|].
  exists channel, attempted, rest. split; [exact He | exact Hs].
Defined.

End Sending.

(** ** Files and direct messages *)

Module Attachments.

Import StringFacts MonadFacts Routing Dispatcher.

(** X23: a missing local file is never sent.  When the path argument of
    the send-file or send-image tool is absent, or names a file that does
    not exist, the call replies with an error and makes no [send]. *)
Theorem missing_file_sends_nothing {casing : Casing} env w tool a st reply st' :
  (tool = "discord_send_file" /\ file_missing w (args.file_path a)) \/
  (tool = "discord_send_image" /\ file_missing w (args.image_path a)) ->
  CallToolHandler env w {| name := tool; arguments := Some a |} st = (reply, st') ->
  isError reply = true /\ sends (calls st') = sends (calls st).
Proof.
  intros Hcase H. unfold CallToolHandler, try_body in H.
  destruct (waitForDiscord w 15000 st) as [[[]|e] st1] eqn:Hw.
  - rewrite (bind_step _ _ _ _ _ Hw) in H.
    apply waitForDiscord_Ok in Hw as (_ & Hc1 & _ & _).
    destruct Hcase as [[-> Hmiss] | [-> Hmiss]].
    + change (dispatch env w _ st1) with (discord_send_file env w a st1) in H.
      unfold discord_send_file in H.
      destruct (resolveChannelWithServer env w (args.channel a) (args.server a) st1)
        as [[channel|e] st2] eqn:Hr;
        pose proof (resolveChannelWithServer_sends _ _ _ _ _ _ _ Hr) as Hs2.
      * rewrite (bind_step _ _ _ _ _ Hr) in H. cbv zeta in H.
        unfold file_missing in Hmiss.
        destruct (args.file_path a) as [path|]; [rewrite Hmiss in H|];
          injection H as <- <-; (split; [reflexivity | congruence]).
      * rewrite (bind_fail _ _ _ _ _ Hr) in H. injection H as <- <-.
        split; [reflexivity | congruence].
    + change (dispatch env w _ st1) with (discord_send_image env w a st1) in H.
      unfold discord_send_image in H.
      destruct (resolveChannelWithServer env w (args.channel a) (args.server a) st1)
        as [[channel|e] st2] eqn:Hr;
        pose proof (resolveChannelWithServer_sends _ _ _ _ _ _ _ Hr) as Hs2.
      * rewrite (bind_step _ _ _ _ _ Hr) in H. cbv zeta in H.
        unfold file_missing in Hmiss.
        destruct (args.image_path a) as [path|]; [rewrite Hmiss in H|];
          injection H as <- <-; (split; [reflexivity | congruence]).
      * rewrite (bind_fail _ _ _ _ _ Hr) in H. injection H as <- <-.
        split; [reflexivity | congruence].
  - rewrite (bind_fail _ _ _ _ _ Hw) in H.
    apply waitForDiscord_Throw in Hw as [_ ->]. injection H as <- <-.
    split; reflexivity.
Qed.

Lemma missing_file_sends_nothing_witness :
  let a := {| args.channel := Some "general"; args.server := None;
              args.message := None; args.code := None;
              args.language := None; args.title := None;
              args.file_path := Some "/tmp/report.pdf"; args.image_path := None;
              args.user := None; args.alias := None; args.user_id := None;
              args.limit := None |} in
  let run := CallToolHandler env_two calm
               {| name := "discord_send_file"; arguments := Some a |}
               (ready_state [office_cached]) in
  fst run = error_reply "File not found: /tmp/report.pdf" /\
  sends (calls (snd run)) = [].
Proof.
  intros a run. split; [reflexivity|].
  destruct (missing_file_sends_nothing env_two calm "discord_send_file" a
              (ready_state [office_cached]) (fst run) (snd run)) as [_ Hs].
  - left. split; reflexivity.
  - apply surjective_pairing.
  - exact Hs.
Defined.

Lemma search_guilds_sends {casing : Casing} w nameOrId entries st r st' :
  search_guilds w nameOrId entries st = (r, st') ->
  sends (calls st') = sends (calls st).
Proof.
  revert st. induction entries as [|[k guildId] rest IH]; intros st; simpl.
  - now intros [= <- <-].
  - unfold mbind at 1, M_bind at 1, get_state.
    destruct (guilds_get (guilds_cache st) guildId) as [guild|]; [|apply IH].
    unfold mbind, M_bind, remote.
    destruct (members_fetch w guild (Some nameOrId) 5) as [members|e].
    + destruct (List.find (member_matches nameOrId) members).
      * intros [= <- <-]. simpl. rewrite sends_app. simpl. apply app_nil_r.
      * intros H. apply IH in H. rewrite H. simpl. rewrite sends_app.
        simpl. apply app_nil_r.
    + intros [= <- <-]. simpl. rewrite sends_app. simpl. apply app_nil_r.
Qed.

Lemma fetch_user_or_sends w id message st r st' :
  fetch_user_or w id message st = (r, st') ->
  sends (calls st') = sends (calls st).
Proof.
  unfold fetch_user_or. destruct (users_fetch w id); intros [= <- <-];
    simpl; rewrite sends_app; simpl; apply app_nil_r.
Qed.

Lemma resolveUser_sends {casing : Casing} env w nameOrId st r st' :
  resolveUser env w nameOrId st = (r, st') ->
  sends (calls st') = sends (calls st).
Proof.
  unfold resolveUser. intros H.
  destruct (waitForDiscord w 15000 st) as [[[]|e] st1] eqn:Hw.
  - rewrite (bind_step _ _ _ _ _ Hw) in H.
    apply waitForDiscord_Ok in Hw as (_ & Hc1 & _ & _). rewrite <- Hc1.
    destruct nameOrId as [n|]; [|now injection H as _ <-].
    unfold mbind at 1, M_bind at 1, get_state in H. cbv zeta in H.
    destruct (is_truthy (read_mapping st1 (toLowerCase n))).
    + destruct (read_mapping st1 (toLowerCase n));
        try (now apply fetch_user_or_sends in H);
        unfold fetch_no_user_or in H; injection H as _ <-;
        simpl; rewrite sends_app; simpl; apply app_nil_r.
    + destruct (test_digits n); [now apply fetch_user_or_sends in H|].
      destruct (search_guilds w n (GUILDS env) st1) as [[found|e] st2] eqn:Hs;
        pose proof (search_guilds_sends _ _ _ _ _ _ Hs) as Hs2.
      * rewrite (bind_step _ _ _ _ _ Hs) in H.
        destruct found; injection H as _ <-; exact Hs2.
      * rewrite (bind_fail _ _ _ _ _ Hs) in H. injection H as _ <-. exact Hs2.
  - rewrite (bind_fail _ _ _ _ _ Hw) in H.
    apply waitForDiscord_Throw in Hw as [_ ->]. now injection H as _ <-.
Qed.

(** X24: the direct-message tool sends at most once, and only to the
    direct-message channel of the user it resolved.  Either the call makes
    exactly one [send], to the user the user resolver returned for the
    argument, whose content is the message and the fenced code joined by a
    line break (absent when both are) and whose only possible attachment
    is the given file, or it makes no [send] and replies with an error.
    And it does make that [send] once the user resolves, the channel opens
    and the file, if one is given, exists: the reply is then the outcome
    of the [send]. *)
Theorem send_dm_sends_one_dm {casing : Casing} env w a st :
  let request := {| name := "discord_send_dm"; arguments := Some a |} in
  let payload :=
    POptions
      (truthy (Some (join nl
         (opt_list (args.message a) ++
          match truthy (args.code a) with
          | Some _ => [formatCodeBlock (args.code a)
                         (or_else (args.language a) EmptyString)]
          | None => []
          end))))
      []
      match truthy (args.file_path a) with
      | Some path => [FromPath path]
      | None => []
      end in
  (forall reply st',
     CallToolHandler env w request st = (reply, st') ->
     (exists st1 user st2,
        waitForDiscord w 15000 st = (Ok tt, st1) /\
        resolveUser env w (args.user a) st1 = (Ok user, st2) /\
        sends (calls st') = sends (calls st) ++ [Send (ToDM user) payload]) \/
     (isError reply = true /\ sends (calls st') = sends (calls st))) /\
  (forall st1 user st2,
     waitForDiscord w 15000 st = (Ok tt, st1) ->
     resolveUser env w (args.user a) st1 = (Ok user, st2) ->
     createDM w user = Ok tt ->
     (forall path, truthy (args.file_path a) = Some path ->
                   existsSync w path = true) ->
     let opened := log_call (CreateDM (u_id user)) st2 in
     CallToolHandler env w request st =
     (match channel_send w (length (calls opened)) (ToDM user) payload with
      | Ok _ =>
          {| text := Text ("DM sent to " +:+ u_username user +:+
                           " (" +:+ u_id user +:+ ")");
             isError := false |}
      | Throw e => error_reply e
      end,
      log_call (Send (ToDM user) payload) opened)).
Proof.
  cbv zeta. split.
  - intros reply st' H. unfold CallToolHandler, try_body in H.
    destruct (waitForDiscord w 15000 st) as [[[]|e] st1] eqn:Hw.
    + rewrite (bind_step _ _ _ _ _ Hw) in H.
      pose proof (waitForDiscord_Ok _ _ _ _ _ Hw) as (_ & Hc1 & _ & _).
      change (dispatch env w _ st1) with (discord_send_dm env w a st1) in H.
      unfold discord_send_dm in H.
      destruct (resolveUser env w (args.user a) st1) as [[user|e] st2] eqn:Hu;
        pose proof (resolveUser_sends _ _ _ _ _ _ Hu) as Hs2.
      * rewrite (bind_step _ _ _ _ _ Hu) in H.
        unfold mbind at 1, M_bind at 1, remote in H.
        destruct (createDM w user) as [[]|e].
        -- cbv zeta in H. unfold mbind at 1, M_bind at 1 in H.
           destruct (truthy (args.file_path a)) as [path|].
           ++ destruct (existsSync w path).
              ** unfold mret at 1, M_ret at 1 in H.
                 match type of H with
                 | context [send w ?to ?p] =>
                     destruct (send w to p (log_call (CreateDM (u_id user)) st2))
                       as [[[]|e] st3] eqn:Hs;
                     pose proof (send_logged _ _ _ _ _ _ Hs) as Hl
                 end.
                 --- rewrite (bind_step _ _ _ _ _ Hs) in H. injection H as _ <-.
                     left. exists st1, user, st2.
                     split; [reflexivity|]. split; [exact Hu|].
                     rewrite Hl, sends_app. simpl calls.
                     rewrite sends_app. simpl. now rewrite app_nil_r, Hs2, Hc1.
                 --- rewrite (bind_fail _ _ _ _ _ Hs) in H. injection H as _ <-.
                     left. exists st1, user, st2.
                     split; [reflexivity|]. split; [exact Hu|].
                     rewrite Hl, sends_app. simpl calls.
                     rewrite sends_app. simpl. now rewrite app_nil_r, Hs2, Hc1.
              ** unfold throw in H. injection H as <- <-. right.
                 split; [reflexivity|]. simpl. rewrite sends_app. simpl.
                 now rewrite app_nil_r, Hs2, Hc1.
           ++ unfold mret at 1, M_ret at 1 in H.
              match type of H with
              | context [send w ?to ?p] =>
                  destruct (send w to p (log_call (CreateDM (u_id user)) st2))
                    as [[[]|e] st3] eqn:Hs;
                  pose proof (send_logged _ _ _ _ _ _ Hs) as Hl
              end.
              ** rewrite (bind_step _ _ _ _ _ Hs) in H. injection H as _ <-.
                 left. exists st1, user, st2.
                 split; [reflexivity|]. split; [exact Hu|].
                 rewrite Hl, sends_app. simpl calls.
                 rewrite sends_app. simpl. now rewrite app_nil_r, Hs2, Hc1.
              ** rewrite (bind_fail _ _ _ _ _ Hs) in H. injection H as _ <-.
                 left. exists st1, user, st2.
                 split; [reflexivity|]. split; [exact Hu|].
                 rewrite Hl, sends_app. simpl calls.
                 rewrite sends_app. simpl. now rewrite app_nil_r, Hs2, Hc1.
        -- injection H as <- <-. right. split; [reflexivity|].
           simpl. rewrite sends_app. simpl. now rewrite app_nil_r, Hs2, Hc1.
      * rewrite (bind_fail _ _ _ _ _ Hu) in H. injection H as <- <-.
        right. split; [reflexivity | congruence].
    + rewrite (bind_fail _ _ _ _ _ Hw) in H.
      apply waitForDiscord_Throw in Hw as [_ ->]. injection H as <- <-.
      right. split; reflexivity.
  - intros st1 user st2 Hw Hu Hdm Hfile.
    unfold CallToolHandler, try_body. rewrite (bind_step _ _ _ _ _ Hw).
    change (dispatch env w _ st1) with (discord_send_dm env w a st1).
    unfold discord_send_dm. rewrite (bind_step _ _ _ _ _ Hu).
    unfold mbind at 1, M_bind at 1, remote. rewrite Hdm. cbv zeta.
    unfold mbind at 1, M_bind at 1.
    destruct (truthy (args.file_path a)) as [path|].
    + rewrite (Hfile path eq_refl). unfold mret at 1, M_ret at 1.
      unfold mbind, M_bind, send, mret, M_ret.
      now destruct (channel_send w _ (ToDM user) _).
    + unfold mret at 1, M_ret at 1.
      unfold mbind, M_bind, send, mret, M_ret.
      now destruct (channel_send w _ (ToDM user) _).
Qed.

Lemma send_dm_sends_one_dm_witness :
  let a := {| args.channel := None; args.server := None;
              args.message := Some "see this"; args.code := Some "x = 1";
              args.language := None; args.title := None;
              args.file_path := None; args.image_path := None;
              args.user := Some "123"; args.alias := None; args.user_id := None;
              args.limit := None |} in
  let run := CallToolHandler env_two knows_john
               {| name := "discord_send_dm"; arguments := Some a |}
               (ready_state [office]) in
  resolveUser env_two knows_john (Some "123") (ready_state [office]) =
    (Ok john, log_call (UsersFetch "123") (ready_state [office])) /\
  isError (fst run) = false /\
  sends (calls (snd run)) =
    [Send (ToDM john)
       (POptions (Some ("see this" +:+ nl +:+ backticks +:+ nl +:+ "x = 1" +:+
                        nl +:+ backticks)) [] [])].
Proof.
  intros a run. split; [reflexivity|].
  destruct (send_dm_sends_one_dm env_two knows_john a (ready_state [office]))
    as [_ Hforward].
  unfold run.
  rewrite (Hforward (ready_state [office]) john
             (log_call (UsersFetch "123") (ready_state [office])));
    [split; reflexivity | reflexivity | reflexivity | reflexivity | discriminate].
Defined.

(** X25: the direct-message tool checks the attachment only after the
    direct-message channel has been opened.  With a file argument whose
    file does not exist, a user that resolves and a channel that opens, the
    call has asked the platform to open the channel, sends nothing, and
    replies with the file-not-found error. *)
Theorem send_dm_missing_file {casing : Casing} env w a (path : string) st st1 user st2 :
  waitForDiscord w 15000 st = (Ok tt, st1) ->
  resolveUser env w (args.user a) st1 = (Ok user, st2) ->
  createDM w user = Ok tt ->
  truthy (args.file_path a) = Some path ->
  existsSync w path = false ->
  CallToolHandler env w {| name := "discord_send_dm"; arguments := Some a |} st
  = (error_reply ("File not found: " +:+ path),
     log_call (CreateDM (u_id user)) st2).
Proof.
  intros Hw Hu Hdm Hp He. apply (dispatch_failure_caught _ _ _ _ _ _ _ Hw).
  change (discord_send_dm env w a st1 =
          (Throw ("File not found: " +:+ path), log_call (CreateDM (u_id user)) st2)).
  unfold discord_send_dm. rewrite (bind_step _ _ _ _ _ Hu).
  unfold mbind at 1, M_bind at 1, remote. rewrite Hdm. cbv zeta.
  unfold mbind at 1, M_bind at 1. now rewrite Hp, He.
Qed.

Lemma send_dm_missing_file_witness :
  let a := {| args.channel := None; args.server := None;
              args.message := Some "see this"; args.code := None;
              args.language := None; args.title := None;
              args.file_path := Some "/tmp/report.pdf"; args.image_path := None;
              args.user := Some "123"; args.alias := None; args.user_id := None;
              args.limit := None |} in
  let run := CallToolHandler env_two knows_john
               {| name := "discord_send_dm"; arguments := Some a |}
               (ready_state [office]) in
  fst run = error_reply "File not found: /tmp/report.pdf" /\
  calls (snd run) = [UsersFetch "123"; CreateDM "123"].
Proof.
  intros a run. unfold run.
  rewrite (send_dm_missing_file env_two knows_john a "/tmp/report.pdf"
             (ready_state [office]) (ready_state [office]) john
             (log_call (UsersFetch "123") (ready_state [office])));
    [split; reflexivity | reflexivity | reflexivity | reflexivity
    | reflexivity | reflexivity].
Defined.

End Attachments.

(** ** Listing tools, limits and the mapping table *)

Module Listing.

Import StringFacts MonadFacts Routing Dispatcher UserMappings.

(** X26: the list-servers tool only reads.  Once the connection is ready
    it never fails, with or without an arguments object, makes no remote
    call and changes nothing; it emits one record per alias, in registry
    order, with the name of the cached guild or [not connected], and flags
    the entries under the default alias. *)
Theorem list_servers_only_reads {casing : Casing} env w (arguments : option args.t) st st1 :
  waitForDiscord w 15000 st = (Ok tt, st1) ->
  exists records,
    CallToolHandler env w
      {| name := "discord_list_servers"; arguments := arguments |} st
    = ({| text := TextJSON EmptyString (JArr records); isError := false |}, st1) /\
    length records = length (GUILDS env) /\
    forall i alias id,
      nth_error (GUILDS env) i = Some (alias, id) ->
      nth_error records i =
      Some (JObj [("alias", JStr alias); ("id", JStr id);
                  ("name",
                   JStr (match guilds_get (guilds_cache st1) id with
                         | Some g => or_else (Some (g_name g)) "not connected"
                         | None => "not connected"
                         end));
                  ("default", JBool (String.eqb alias (DEFAULT_GUILD_ALIAS env)))]).
Proof.
  intros Hw.
  exists (List.map (server_record env (guilds_cache st1)) (GUILDS env)).
  split; [|split].
  - unfold CallToolHandler, try_body. rewrite (bind_step _ _ _ _ _ Hw).
    reflexivity.
  - apply List.length_map.
  - intros i alias id Hi. rewrite List.nth_error_map, Hi. simpl.
    now destruct (guilds_get (guilds_cache st1) id).
Qed.

Lemma list_servers_only_reads_witness :
  exists records,
    CallToolHandler env_two calm
      {| name := "discord_list_servers"; arguments := None |}
      (initial_state env_two [office])
    = ({| text := TextJSON EmptyString (JArr records); isError := false |},
       set_ready (initial_state env_two [office])) /\
    length records = 2%nat.
Proof.
  destruct (list_servers_only_reads env_two calm None
              (initial_state env_two [office])
              (set_ready (initial_state env_two [office])) eq_refl)
    as (records & Hr & Hl & _).
  exists records. split; [exact Hr | exact Hl].
Defined.

Lemma number_or_nonzero (n d : Z) : n <> 0 -> number_or (Some n) d = n.
Proof. destruct n; [congruence | reflexivity | reflexivity]. Qed.

(** X27: the limits are capped.  Whatever limit is supplied, the member
    fetch of the list-members tool asks for at most 100 and the message
    fetch of the read-messages tool for at most 50; a supplied limit other
    than 0 is passed on as the smaller of itself and the cap (so a negative
    one goes out unchanged). *)
Theorem limits_are_capped {casing : Casing} env w a st :
  (forall reply st',
     CallToolHandler env w
       {| name := "discord_list_members"; arguments := Some a |} st = (reply, st') ->
     (exists guild l,
        calls st' = calls st ++ [MembersFetch (g_id guild) None l] /\
        l <= 100 /\
        (forall n, args.limit a = Some n -> n <> 0 -> l = Z.min n 100)) \/
     (calls st' = calls st /\ isError reply = true)) /\
  (forall reply st',
     CallToolHandler env w
       {| name := "discord_read_messages"; arguments := Some a |} st = (reply, st') ->
     exists pre,
       (forall channel_id limit, ~ In (MessagesFetch channel_id limit) pre) /\
       ((exists channel l,
           calls st' = calls st ++ pre ++ [MessagesFetch (c_id channel) l] /\
           l <= 50 /\
           (forall n, args.limit a = Some n -> n <> 0 -> l = Z.min n 50)) \/
        (calls st' = calls st ++ pre /\ isError reply = true))).
Proof.
  split.
  - intros reply st' H.
    apply CallToolHandler_list_members_logged in H as [[guild H] | H];
      [left | now right].
    exists guild, (Z.min (number_or (args.limit a) 50) 100).
    split; [exact H|]. split; [apply Z.le_min_r|].
    intros n Hn Hz. now rewrite Hn, number_or_nonzero.
  - intros reply st' H.
    apply CallToolHandler_read_messages_logged in H
      as (pre & Hpre & [[channel H] | H]); exists pre; (split; [exact Hpre|]);
      [left | now right].
    exists channel, (Z.min (number_or (args.limit a) 10) 50).
    split; [exact H|]. split; [apply Z.le_min_r|].
    intros n Hn Hz. now rewrite Hn, number_or_nonzero.
Qed.

Lemma limits_are_capped_witness :
  let a := args.set_limit (Some 500) args.empty in
  let run := CallToolHandler env_two calm
               {| name := "discord_list_members"; arguments := Some a |}
               (ready_state [office_cached]) in
  exists guild, calls (snd run) = [MembersFetch (g_id guild) None 100].
Proof.
  intros a run.
  destruct (limits_are_capped env_two calm a (ready_state [office_cached]))
    as [H _].
  destruct (H (fst run) (snd run)) as [(guild & l & Hc & _ & Hl) | [_ Herr]].
  - apply surjective_pairing.
  - exists guild. rewrite Hc, (Hl 500 eq_refl); [reflexivity | discriminate].
  - vm_compute in Herr. discriminate.
Defined.

(** X28: adding an alias touches one key.  After the add-user-alias tool
    has run with an alias and an ID, the table maps the lower-cased alias
    to that ID, whatever it held there before, every other key reads as it
    did, and nothing was asked of the platform.  The one alias that is not
    stored is [__proto__] (when the table has no own property of that
    name): the call then changes nothing, and replies as for any other. *)
Theorem add_user_mapping_touches_one_key {casing : Casing} a (alias id : string) st r st' :
  args.alias a = Some alias -> args.user_id a = Some id ->
  discord_add_user_mapping a st = (r, st') ->
  (toLowerCase alias <> "__proto__" ->
   USER_MAPPINGS st' !! toLowerCase alias = Some id) /\
  (toLowerCase alias = "__proto__" -> has_own st "__proto__" = false ->
   st' = st) /\
  (forall k, k <> toLowerCase alias ->
     USER_MAPPINGS st' !! k = USER_MAPPINGS st !! k) /\
  calls st' = calls st /\
  r = Ok (Text ("Mapped " +:+ dq +:+ alias +:+ dq +:+ " -> " +:+ id +:+
                " (session only)")).
Proof.
  intros Ha Hv. unfold discord_add_user_mapping. rewrite Ha, Hv.
  unfold modify, mbind, M_bind, mret, M_ret. intros [= <- <-].
  split; [|split; [|split; [|split]]].
  - intros Hk. now apply assign_mapping_stores.
  - intros Hk Hown. unfold assign_mapping. now rewrite Hk, Hown.
  - intros k Hk. unfold assign_mapping.
    destruct (_ && _)%bool; [reflexivity|]. simpl.
    apply lookup_insert_ne. congruence.
  - apply assign_mapping_keeps.
  - reflexivity.
Qed.

Lemma add_user_mapping_touches_one_key_witness :
  let a := {| args.channel := None; args.server := None;
              args.message := None; args.code := None;
              args.language := None; args.title := None;
              args.file_path := None; args.image_path := None;
              args.user := None; args.alias := Some "JOHN";
              args.user_id := Some "456"; args.limit := None |} in
  let st := set_ready (initial_state env_john [office]) in
  let st' := snd (discord_add_user_mapping a st) in
  USER_MAPPINGS st' !! "john" = Some "456" /\
  USER_MAPPINGS st' !! "John" = Some "123".
Proof.
  intros a st st'.
  destruct (add_user_mapping_touches_one_key a "JOHN" "456" st
              (fst (discord_add_user_mapping a st)) st' eq_refl eq_refl eq_refl)
    as (H1 & _ & H2 & _).
  split; [apply H1; discriminate|]. rewrite (H2 "John"); [reflexivity | discriminate].
Defined.

(** X29: a call without an arguments object.  Once the connection is
    ready, every tool of the catalog but list-servers answers such a call
    with the error of reading a property of [undefined], before any remote
    call and without changing anything. *)
Theorem absent_arguments_are_an_error {casing : Casing} env w (tool : string) st st1 :
  waitForDiscord w 15000 st = (Ok tt, st1) ->
  In tool tool_names -> tool <> "discord_list_servers" ->
  CallToolHandler env w {| name := tool; arguments := None |} st
  = (error_reply (reading_undefined (first_property tool)), st1).
Proof.
  intros Hw Hin Hne. unfold tool_names in Hin. simpl in Hin.
  repeat destruct Hin as [<- | Hin]; try contradiction;
    apply (dispatch_failure_caught _ _ _ _ _ _ _ Hw); reflexivity.
Qed.

Lemma absent_arguments_are_an_error_witness :
  CallToolHandler env_two calm
    {| name := "discord_send_dm"; arguments := None |} (ready_state [office])
  = (error_reply "Cannot read properties of undefined (reading 'user')",
     ready_state [office]).
Proof.
  apply (absent_arguments_are_an_error env_two calm "discord_send_dm"
           (ready_state [office]) (ready_state [office]) eq_refl).
  - unfold tool_names. simpl. auto 10.
  - discriminate.
Defined.

End Listing.

Module ChannelListing.

Import StringFacts MonadFacts Routing Dispatcher ChannelResolver.

(** X30: the list-channels tool always refreshes.  A call whose server
    resolves asks for one refresh of that guild's channels, even when the
    cache already held them, and its reply is the outcome of the refresh:
    its error, or the list, in the order of the refreshed cache, of exactly
    the channels of that guild that are text-capable and not threads, with
    [none] as the category of a channel without a parent.  A call that
    reports success is such a call. *)
Theorem list_channels_refreshes {casing : Casing} env w a st :
  let request := {| name := "discord_list_channels"; arguments := Some a |} in
  let listing (guild : Guild) (refreshed : list Channel) :=
    TextJSON ("Channels in " +:+ g_name guild +:+ ":" +:+ nl)
      (JArr (List.map
               (fun c =>
                  JObj [("id", JStr (c_id c)); ("name", JStr (c_name c));
                        ("type", JNum (c_type c));
                        ("category",
                         JStr (match truthy (c_parent_name c) with
                               | Some category => category
                               | None => "none"
                               end))])
               (List.filter
                  (fun c => c_isTextBased c && negb (c_isThread c))
                  refreshed))) in
  (forall st1 guild,
     waitForDiscord w 15000 st = (Ok tt, st1) ->
     resolveGuild env (guilds_cache st1) (args.server a) = Ok guild ->
     CallToolHandler env w request st =
     match channels_fetch w guild with
     | Ok refreshed =>
         ({| text := listing guild refreshed; isError := false |},
          set_channels (g_id guild) refreshed
            (log_call (ChannelsFetch (g_id guild)) st1))
     | Throw e => (error_reply e, log_call (ChannelsFetch (g_id guild)) st1)
     end) /\
  (forall reply st',
     CallToolHandler env w request st = (reply, st') ->
     isError reply = false ->
     exists st1 guild refreshed,
       waitForDiscord w 15000 st = (Ok tt, st1) /\
       resolveGuild env (guilds_cache st1) (args.server a) = Ok guild /\
       channels_fetch w guild = Ok refreshed /\
       calls st' = calls st ++ [ChannelsFetch (g_id guild)] /\
       text reply = listing guild refreshed).
Proof.
  cbv zeta.
  assert (Hforward : forall st1 guild,
    waitForDiscord w 15000 st = (Ok tt, st1) ->
    resolveGuild env (guilds_cache st1) (args.server a) = Ok guild ->
    CallToolHandler env w {| name := "discord_list_channels"; arguments := Some a |} st =
    match channels_fetch w guild with
    | Ok refreshed =>
        ({| text :=
              TextJSON ("Channels in " +:+ g_name guild +:+ ":" +:+ nl)
                (JArr (List.map channel_record
                         (List.filter
                            (fun c => c_isTextBased c && negb (c_isThread c))
                            refreshed)));
            isError := false |},
         set_channels (g_id guild) refreshed
           (log_call (ChannelsFetch (g_id guild)) st1))
    | Throw e => (error_reply e, log_call (ChannelsFetch (g_id guild)) st1)
    end).
  { intros st1 guild Hw Hg.
    unfold CallToolHandler, try_body. rewrite (bind_step _ _ _ _ _ Hw).
    change (dispatch env w _ st1) with (discord_list_channels env w a st1).
    unfold discord_list_channels.
    unfold mbind at 1 2, M_bind at 1 2, get_state, lift_outcome. rewrite Hg.
    unfold fetch_channels, remote, modify, mbind, M_bind, mret, M_ret.
    now destruct (channels_fetch w guild). }
  split; [exact Hforward|].
  intros reply st' H Hok.
  destruct (CallToolHandler_success _ _ _ _ _ _ H Hok) as (st1 & Hw & Hd).
  pose proof (waitForDiscord_Ok _ _ _ _ _ Hw) as (_ & Hc1 & _ & _).
  change (discord_list_channels env w a st1 = (Ok (text reply), st')) in Hd.
  unfold discord_list_channels in Hd.
  unfold mbind at 1 2, M_bind at 1 2, get_state, lift_outcome in Hd.
  destruct (resolveGuild env (guilds_cache st1) (args.server a)) as [guild|e] eqn:Hg;
    [|discriminate].
  clear Hd. rewrite (Hforward st1 guild Hw Hg) in H.
  exists st1, guild.
  destruct (channels_fetch w guild) as [refreshed|e];
    [|injection H as <- _; discriminate].
  exists refreshed. injection H as <- <-.
  split; [exact Hw|]. split; [exact Hg|]. split; [reflexivity|].
  split; [simpl; now rewrite Hc1 | reflexivity].
Qed.

Lemma list_channels_refreshes_witness :
  let a := {| args.channel := None; args.server := Some "CheckPoint";
              args.message := None; args.code := None;
              args.language := None; args.title := None;
              args.file_path := None; args.image_path := None;
              args.user := None; args.alias := None; args.user_id := None;
              args.limit := None |} in
  let run := CallToolHandler env_two calm
               {| name := "discord_list_channels"; arguments := Some a |}
               (ready_state [office_cached; lab]) in
  resolveGuild env_two [office_cached; lab] (Some "CheckPoint") = Ok lab /\
  fst run =
    {| text := TextJSON ("Channels in Lab:" +:+ nl)
                 (JArr [channel_record general; channel_record releases]);
       isError := false |} /\
  calls (snd run) = [ChannelsFetch "222"].
Proof.
  intros a run. split; [reflexivity|].
  destruct (list_channels_refreshes env_two calm a
              (ready_state [office_cached; lab])) as [Hforward _].
  unfold run.
  rewrite (Hforward (ready_state [office_cached; lab]) lab eq_refl eq_refl).
  split; reflexivity.
Defined.

End ChannelListing.
